(** * Batch PDF processor: job and batch scheduling core

    A shallow embedding of [batch_processor.py]: the job and batch
    records, the processor's registries and FIFO queue, the submission,
    query and cancel operations, and the background worker of
    [_process_queue] / [_process_job].

    Python objects are shared by reference: the [PDFJob] stored under
    [self._jobs[job_id]] is the very object appended to [batch.jobs], and
    the worker keeps the objects it looked up in local variables.  The
    embedding therefore keeps two object stores ([heap_jobs],
    [heap_batches]); dictionaries, job lists and the worker's locals hold
    indices into them, and a new object is always placed at the end.

    The worker holds [self._lock] only around its dictionary lookups, and
    none of the status writes of [_process_job] is made under the lock.
    The worker is therefore a small-step machine whose program points are
    the places between two accesses to shared data, while each public
    method runs as one step.  A schedule is a list of such steps, together
    with changes of the file system made by the outside world.

    The collaborators ([validate_pdf], [export_to_excel], [shutil.move])
    answer through an oracle; [uuid] and [pathlib] are a parameter.  Not
    modelled: [print], the callbacks of [set_callbacks] (none is
    registered), and [stop]: a run stays within one life of the worker
    thread. *)

From Stdlib Require Import ZArith SpecFloat Ascii String.
From stdpp Require Import gmap strings list fin_maps.

Local Open Scope Z_scope.

(** ** Data model *)

Inductive JobStatus := PENDING | PROCESSING | COMPLETED | FAILED | CANCELLED.

#[global] Instance JobStatus_eq_dec : EqDecision JobStatus.
Proof. solve_decision. Defined.

(** The fields of [PDFValidationReport] that the processor reads. *)
Record PDFValidationReport := mkReport {
  template_name : string;
  invoices_found : Z;
  is_valid : bool;
}.

(** Times are readings of a counter that advances at every
    [datetime.now()]. *)
Record PDFJob := mkPDFJob {
  job_id : string;
  file_path : string;
  filename : string;
  status : JobStatus;
  created_at : nat;
  started_at : option nat;
  completed_at : option nat;
  report : option PDFValidationReport;
  excel_path : option string;
  error : option string;
  progress : Z;
}.

Record BatchJob := mkBatchJob {
  batch_id : string;
  jobs : list nat;
  batch_created_at : nat;
  batch_status : JobStatus;
}.

Definition set_status (st : JobStatus) (j : PDFJob) : PDFJob :=
  mkPDFJob (job_id j) (file_path j) (filename j) st (created_at j)
    (started_at j) (completed_at j) (report j) (excel_path j) (error j)
    (progress j).

Definition set_started_at (t : nat) (j : PDFJob) : PDFJob :=
  mkPDFJob (job_id j) (file_path j) (filename j) (status j) (created_at j)
    (Some t) (completed_at j) (report j) (excel_path j) (error j)
    (progress j).

Definition set_completed_at (t : nat) (j : PDFJob) : PDFJob :=
  mkPDFJob (job_id j) (file_path j) (filename j) (status j) (created_at j)
    (started_at j) (Some t) (report j) (excel_path j) (error j)
    (progress j).

Definition set_report (r : PDFValidationReport) (j : PDFJob) : PDFJob :=
  mkPDFJob (job_id j) (file_path j) (filename j) (status j) (created_at j)
    (started_at j) (completed_at j) (Some r) (excel_path j) (error j)
    (progress j).

Definition set_excel_path (p : string) (j : PDFJob) : PDFJob :=
  mkPDFJob (job_id j) (file_path j) (filename j) (status j) (created_at j)
    (started_at j) (completed_at j) (report j) (Some p) (error j)
    (progress j).

Definition set_error (e : string) (j : PDFJob) : PDFJob :=
  mkPDFJob (job_id j) (file_path j) (filename j) (status j) (created_at j)
    (started_at j) (completed_at j) (report j) (excel_path j) (Some e)
    (progress j).

Definition set_progress (p : Z) (j : PDFJob) : PDFJob :=
  mkPDFJob (job_id j) (file_path j) (filename j) (status j) (created_at j)
    (started_at j) (completed_at j) (report j) (excel_path j) (error j) p.

Definition set_batch_status (st : JobStatus) (b : BatchJob) : BatchJob :=
  mkBatchJob (batch_id b) (jobs b) (batch_created_at b) st.

Definition append_job (r : nat) (b : BatchJob) : BatchJob :=
  mkBatchJob (batch_id b) (jobs b ++ [r]) (batch_created_at b)
    (batch_status b).

(** ** The worker thread

    Program points of [_process_queue] and [_process_job], named after the
    statement the thread executes next. *)
Inductive worker_pc :=
  | AtGet
      (* line 313: [self._queue.get(timeout=1.0)] *)
  | AtLookup (bid : option string) (jid : string)
      (* lines 317-319: the two dictionary lookups under the lock *)
  | AtCheck (job : option nat) (batch : option nat)
      (* line 321: [if not job or job.status == CANCELLED] *)
  | AtBegin (job : nat) (batch : option nat)
      (* lines 346-348: [job.status = PROCESSING] and its two siblings *)
  | AtMarkBatch (job : nat) (batch : option nat)
      (* lines 350-351: [if batch: batch.status = PROCESSING] *)
  | AtRun (job : nat) (batch : option nat)
      (* lines 356-399: the collaborators and the final status *)
  | AtBatchDone (job : nat) (batch : option nat)
      (* lines 409-415: [all_done] and [batch.status = COMPLETED] *)
  | AtRateLimit.
      (* lines 329-334: [task_done] and the sleep between jobs *)

(** What the outside world can see of the worker. *)
Inductive event :=
  | Execute (job : nat)   (* [validate_pdf] called for this job *)
  | Sleep.                (* [time.sleep(self.delay_between_jobs)] *)

(** ** The processor *)
Record BatchProcessor := mkProcessor {
  heap_jobs : list PDFJob;
  heap_batches : list BatchJob;
  _batches : gmap string nat;
  _jobs : gmap string nat;
  _queue : list (option string * string);
  _is_running : bool;
  worker : worker_pc;
  clock : nat;
  entropy : nat;
  files : gset string;
  log : list event;
}.

Definition set_heap_jobs h (s : BatchProcessor) :=
  mkProcessor h (heap_batches s) (_batches s) (_jobs s) (_queue s)
    (_is_running s) (worker s) (clock s) (entropy s) (files s) (log s).

Definition set_heap_batches h (s : BatchProcessor) :=
  mkProcessor (heap_jobs s) h (_batches s) (_jobs s) (_queue s)
    (_is_running s) (worker s) (clock s) (entropy s) (files s) (log s).

Definition set_batches m (s : BatchProcessor) :=
  mkProcessor (heap_jobs s) (heap_batches s) m (_jobs s) (_queue s)
    (_is_running s) (worker s) (clock s) (entropy s) (files s) (log s).

Definition set_jobs m (s : BatchProcessor) :=
  mkProcessor (heap_jobs s) (heap_batches s) (_batches s) m (_queue s)
    (_is_running s) (worker s) (clock s) (entropy s) (files s) (log s).

Definition set_queue q (s : BatchProcessor) :=
  mkProcessor (heap_jobs s) (heap_batches s) (_batches s) (_jobs s) q
    (_is_running s) (worker s) (clock s) (entropy s) (files s) (log s).

Definition set_is_running b (s : BatchProcessor) :=
  mkProcessor (heap_jobs s) (heap_batches s) (_batches s) (_jobs s)
    (_queue s) b (worker s) (clock s) (entropy s) (files s) (log s).

Definition set_worker pc (s : BatchProcessor) :=
  mkProcessor (heap_jobs s) (heap_batches s) (_batches s) (_jobs s)
    (_queue s) (_is_running s) pc (clock s) (entropy s) (files s) (log s).

Definition set_clock c (s : BatchProcessor) :=
  mkProcessor (heap_jobs s) (heap_batches s) (_batches s) (_jobs s)
    (_queue s) (_is_running s) (worker s) c (entropy s) (files s) (log s).

Definition set_entropy e (s : BatchProcessor) :=
  mkProcessor (heap_jobs s) (heap_batches s) (_batches s) (_jobs s)
    (_queue s) (_is_running s) (worker s) (clock s) e (files s) (log s).

Definition set_files f (s : BatchProcessor) :=
  mkProcessor (heap_jobs s) (heap_batches s) (_batches s) (_jobs s)
    (_queue s) (_is_running s) (worker s) (clock s) (entropy s) f (log s).

Definition set_log l (s : BatchProcessor) :=
  mkProcessor (heap_jobs s) (heap_batches s) (_batches s) (_jobs s)
    (_queue s) (_is_running s) (worker s) (clock s) (entropy s) (files s) l.

(** [BatchProcessor.__init__]: empty registries, empty queue, no thread. *)
Definition init : BatchProcessor :=
  mkProcessor [] [] ∅ ∅ [] false AtGet 0 0 ∅ [].

(** ** Derived batch metrics (the properties of [BatchJob]) *)

Definition batch_jobs (s : BatchProcessor) (b : BatchJob) : list PDFJob :=
  omap (λ r, heap_jobs s !! r) (jobs b).

Definition count_jobs (P : JobStatus → bool) (js : list PDFJob) : Z :=
  foldr Z.add 0 ((λ _, 1) <$> List.filter (λ j, P (status j)) js).

Definition total_jobs (s : BatchProcessor) (b : BatchJob) : Z :=
  Z.of_nat (length (batch_jobs s b)).

Definition completed_jobs (s : BatchProcessor) (b : BatchJob) : Z :=
  count_jobs (λ st, bool_decide (st ∈ [COMPLETED; FAILED])) (batch_jobs s b).

Definition successful_jobs (s : BatchProcessor) (b : BatchJob) : Z :=
  count_jobs (λ st, bool_decide (st = COMPLETED)) (batch_jobs s b).

Definition failed_jobs (s : BatchProcessor) (b : BatchJob) : Z :=
  count_jobs (λ st, bool_decide (st = FAILED)) (batch_jobs s b).

(** Python's [a / b] on two [int]s is the binary64 quotient, [x * 100]
    the binary64 product, and [int(x)] truncates towards zero.  Binary64
    is IEEE 754 with 53 bits of precision, rounding to nearest even, as
    specified by the Standard Library's [SpecFloat].  Job counts are far
    below 2^53, so the conversion of the operands is exact. *)
Definition float_of_int (z : Z) : spec_float :=
  binary_normalize 53 1024 z 0 false.

Definition float_div (x y : spec_float) : spec_float := SFdiv 53 1024 x y.
Definition float_mul (x y : spec_float) : spec_float := SFmul 53 1024 x y.

Definition int_of_float (x : spec_float) : Z :=
  match x with
  | S754_finite sign m e =>
      let v := if 0 <=? e then Z.pos m * 2 ^ e else Z.pos m / 2 ^ (- e) in
      if sign then - v else v
  | _ => 0
  end.

(** [int((completed / total) * 100)] *)
Definition percent (completed total : Z) : Z :=
  int_of_float
    (float_mul (float_div (float_of_int completed) (float_of_int total))
               (float_of_int 100)).

Definition batch_progress (s : BatchProcessor) (b : BatchJob) : Z :=
  if total_jobs s b =? 0 then 0
  else percent (completed_jobs s b) (total_jobs s b).

(** ** A state and exception monad for the public methods *)

Inductive exn :=
  | FileNotFoundError (msg : string)
  | ValueError (msg : string).

Inductive result (A : Type) :=
  | Return (a : A)
  | Raise (e : exn).
Arguments Return {A} a.
Arguments Raise {A} e.

Definition M (A : Type) : Type := BatchProcessor → result A * BatchProcessor.

#[global] Instance M_ret : MRet M := λ A a s, (Return a, s).

#[global] Instance M_bind : MBind M := λ A B f m s,
  match m s with
  | (Return a, s') => f a s'
  | (Raise e, s') => (Raise e, s')
  end.

Definition get : M BatchProcessor := λ s, (Return s, s).
Definition modify (f : BatchProcessor → BatchProcessor) : M unit :=
  λ s, (Return (), f s).
Definition raise {A} (e : exn) : M A := λ s, (Raise e, s).

(** The state a method leaves behind, whatever it returned. *)
Definition exec {A} (m : M A) (s : BatchProcessor) : BatchProcessor := (m s).2.

(** ** The platform: [uuid] and [pathlib]

    [uuid8 k] is the value of [str(uuid.uuid4())[:8]] at the [k]-th draw
    of the process; the other fields are the [pathlib] and [str]
    operations the processor applies to a path. *)
Class Platform := {
  uuid8 : nat → string;
  path_suffix : string → string;   (* [Path(p).suffix] *)
  str_lower : string → string;     (* [s.lower()] *)
  path_str : string → string;      (* [str(Path(p))] *)
  path_name : string → string;     (* [Path(p).name] *)
}.

(** An answer of a collaborator: a value, or an exception with its
    [str(e)]. *)
Inductive call (A : Type) :=
  | Returns (a : A)
  | Raises (msg : string).
Arguments Returns {A} a.
Arguments Raises {A} msg.

(** What the collaborators answer during one run of [_process_job]:
    [validate_pdf], [export_to_excel] (asked only when invoices were
    found) and [shutil.move]. *)
Record outcome := mkOutcome {
  validate_pdf : call PDFValidationReport;
  export_to_excel : call string;
  shutil_move : call unit;
}.

Section Processor.
Context `{Platform}.

Definition uuid4_8 : M string := λ s,
  (Return (uuid8 (entropy s)), set_entropy (S (entropy s)) s).

Definition datetime_now : M nat := λ s,
  (Return (clock s), set_clock (S (clock s)) s).

Definition alloc_job (j : PDFJob) : M nat := λ s,
  (Return (length (heap_jobs s)), set_heap_jobs (heap_jobs s ++ [j]) s).

Definition alloc_batch (b : BatchJob) : M nat := λ s,
  (Return (length (heap_batches s)),
   set_heap_batches (heap_batches s ++ [b]) s).

Definition update_job (r : nat) (f : PDFJob → PDFJob) (s : BatchProcessor)
    : BatchProcessor :=
  set_heap_jobs (alter f r (heap_jobs s)) s.

Definition update_batch (r : nat) (f : BatchJob → BatchJob)
    (s : BatchProcessor) : BatchProcessor :=
  set_heap_batches (alter f r (heap_batches s)) s.

(** [PDFJob(job_id=..., file_path=..., filename=...)] *)
Definition new_job (jid fp fn : string) (now : nat) : PDFJob :=
  mkPDFJob jid fp fn PENDING now None None None None None 0.

Definition is_pdf (fp : string) : bool :=
  bool_decide (str_lower (path_suffix fp) = ".pdf").

Definition path_exists (fp : string) (s : BatchProcessor) : bool :=
  bool_decide (fp ∈ files s).

(** [start()] *)
Definition start : M unit := λ s,
  if _is_running s then (Return (), s)
  else (Return (), set_is_running true s).

(** The first loop of [create_batch] (lines 204-216). *)
Fixpoint create_jobs (batch : nat) (file_paths : list string) : M unit :=
  match file_paths with
  | [] => mret ()
  | fp :: rest =>
      s ← get;
      (if path_exists fp s && is_pdf fp then
         jid ← uuid4_8;
         now ← datetime_now;
         job ← alloc_job (new_job jid (path_str fp) (path_name fp) now);
         modify (update_batch batch (append_job job));;
         modify (λ s, set_jobs (<[jid := job]> (_jobs s)) s)
       else mret ());;
      create_jobs batch rest
  end.

(** The entries of the second loop (lines 222-223). *)
Definition queue_entries (bid : string) (s : BatchProcessor) (rs : list nat)
    : list (option string * string) :=
  omap (λ r, (λ j, (Some bid, job_id j)) <$> heap_jobs s !! r) rs.

Definition jobs_of (batch : nat) (s : BatchProcessor) : list nat :=
  default [] (jobs <$> heap_batches s !! batch).

Definition create_batch (file_paths : list string) : M nat :=
  bid ← uuid4_8;
  now ← datetime_now;
  batch ← alloc_batch (mkBatchJob bid [] now PENDING);
  create_jobs batch file_paths;;
  modify (λ s, set_batches (<[bid := batch]> (_batches s)) s);;
  modify (λ s, set_queue (_queue s ++ queue_entries bid s (jobs_of batch s)) s);;
  start;;
  mret batch.

Definition add_single_job (fp : string) : M nat :=
  s ← get;
  if negb (path_exists fp s) then
    raise (FileNotFoundError ("File not found: " +:+ fp))
  else if negb (is_pdf fp) then
    raise (ValueError "Only PDF files are allowed")
  else
    jid ← uuid4_8;
    now ← datetime_now;
    job ← alloc_job (new_job jid (path_str fp) (path_name fp) now);
    modify (λ s, set_jobs (<[jid := job]> (_jobs s)) s);;
    modify (λ s, set_queue (_queue s ++ [(None, jid)]) s);;
    start;;
    mret job.

Definition get_batch (bid : string) : M (option nat) := λ s,
  (Return (_batches s !! bid), s).

Definition get_job (jid : string) : M (option nat) := λ s,
  (Return (_jobs s !! jid), s).

Definition cancel_if_pending (j : PDFJob) : PDFJob :=
  if decide (status j = PENDING) then set_status CANCELLED j else j.

Definition cancel_batch (bid : string) : M bool := λ s,
  match _batches s !! bid with
  | None => (Return false, s)
  | Some batch =>
      let h := foldl (λ h r, alter cancel_if_pending r h) (heap_jobs s)
                     (jobs_of batch s) in
      (Return true,
       update_batch batch (set_batch_status CANCELLED) (set_heap_jobs h s))
  end.

(** ** One step of the worker thread *)

(** The truth value of the tuple's first component in [if batch_id]. *)
Definition truthy (bid : option string) : option string :=
  match bid with
  | Some b => if decide (b = EmptyString) then None else Some b
  | None => None
  end.

Definition job_status (s : BatchProcessor) (r : nat) : option JobStatus :=
  status <$> heap_jobs s !! r.

Definition is_terminal (st : JobStatus) : bool :=
  bool_decide (st ∈ [COMPLETED; FAILED; CANCELLED]).

(** [all(j.status in [...] for j in batch.jobs)] *)
Definition all_done (s : BatchProcessor) (batch : nat) : bool :=
  forallb (λ r, default true (is_terminal <$> job_status s r))
          (jobs_of batch s).

Definition tick (s : BatchProcessor) : BatchProcessor :=
  set_clock (S (clock s)) s.

(** The [except] branch (lines 395-397). *)
Definition fail_job (r : nat) (msg : string) (s : BatchProcessor)
    : BatchProcessor :=
  tick (update_job r (λ j, set_error msg
                             (set_completed_at (clock s)
                                (set_status FAILED j))) s).

(** Lines 388-390. *)
Definition complete_job (r : nat) (s : BatchProcessor) : BatchProcessor :=
  tick (update_job r (λ j, set_progress 100
                             (set_completed_at (clock s)
                                (set_status COMPLETED j))) s).

(** Lines 371-390: the move to the processed folder and what follows. *)
Definition finish_job (o : outcome) (r : nat) (s : BatchProcessor)
    : BatchProcessor :=
  let s := update_job r (set_progress 90) s in
  match shutil_move o with
  | Raises msg => fail_job r msg s
  | Returns _ => complete_job r s
  end.

(** Lines 356-399.  The [datetime.now()] of line 366 only names the
    output file. *)
Definition run_job (o : outcome) (r : nat) (s : BatchProcessor)
    : BatchProcessor :=
  let s := set_log (log s ++ [Execute r])
             (update_job r (set_progress 30) s) in
  match validate_pdf o with
  | Raises msg => fail_job r msg s
  | Returns rep =>
      let s := update_job r (λ j, set_progress 70 (set_report rep j)) s in
      if 0 <? invoices_found rep then
        match export_to_excel o with
        | Raises msg => fail_job r msg (tick s)
        | Returns p =>
            finish_job o r (update_job r (set_excel_path p) (tick s))
        end
      else finish_job o r s
  end.

Definition worker_step (o : outcome) (s : BatchProcessor) : BatchProcessor :=
  if negb (_is_running s) then s else
  match worker s with
  | AtGet =>
      match _queue s with
      | [] => s
      | (bid, jid) :: q => set_worker (AtLookup bid jid) (set_queue q s)
      end
  | AtLookup bid jid =>
      set_worker (AtCheck (_jobs s !! jid)
                          (truthy bid ≫= λ b, _batches s !! b)) s
  | AtCheck job batch =>
      match job with
      | None => set_worker AtGet s
      | Some r =>
          if decide (job_status s r = Some CANCELLED)
          then set_worker AtGet s
          else set_worker (AtBegin r batch) s
      end
  | AtBegin r batch =>
      set_worker (AtMarkBatch r batch)
        (tick (update_job r (λ j, set_progress 10
                                    (set_started_at (clock s)
                                       (set_status PROCESSING j))) s))
  | AtMarkBatch r batch =>
      set_worker (AtRun r batch)
        match batch with
        | Some b => update_batch b (set_batch_status PROCESSING) s
        | None => s
        end
  | AtRun r batch =>
      set_worker (AtBatchDone r batch) (run_job o r s)
  | AtBatchDone r batch =>
      set_worker AtRateLimit
        match batch with
        | Some b =>
            if all_done s b
            then update_batch b (set_batch_status COMPLETED) s
            else s
        | None => s
        end
  | AtRateLimit =>
      set_worker AtGet
        match _queue s with
        | [] => s
        | _ :: _ => set_log (log s ++ [Sleep]) s
        end
  end.

(** ** Schedules *)

Inductive action :=
  | CreateBatch (file_paths : list string)
  | AddSingleJob (fp : string)
  | CancelBatch (bid : string)
  | WorkerStep (o : outcome)
  | Filesystem (fs : gset string).

Definition apply_action (a : action) (s : BatchProcessor) : BatchProcessor :=
  match a with
  | CreateBatch fps => exec (create_batch fps) s
  | AddSingleJob fp => exec (add_single_job fp) s
  | CancelBatch bid => exec (cancel_batch bid) s
  | WorkerStep o => worker_step o s
  | Filesystem fs => set_files fs s
  end.

Definition run (sched : list action) (s : BatchProcessor) : BatchProcessor :=
  foldl (λ s a, apply_action a s) s sched.

End Processor.

(** ** A reference platform

    Plain ASCII POSIX paths already in normal form, and identifiers
    drawn as consecutive 32-bit numbers printed as eight hex digits. *)
Module Posix.
Local Open Scope char_scope.

Fixpoint after_last (sep : ascii) (p : string) : option string :=
  match p with
  | EmptyString => None
  | String c rest =>
      match after_last sep rest with
      | Some t => Some t
      | None => if decide (c = sep) then Some rest else None
      end
  end.

Definition name (p : string) : string := default p (after_last "/" p).

(** [PurePath.suffix]: the last dot of the name starts the suffix unless
    it is the first or the last character of the name. *)
Definition suffix (p : string) : string :=
  match name p with
  | EmptyString => EmptyString
  | String _ rest =>
      match after_last "." rest with
      | Some (String c t) => String "." (String c t)
      | _ => EmptyString
      end
  end.

Definition lower_ascii (c : ascii) : ascii :=
  let n := nat_of_ascii c in
  if ((65 <=? n) && (n <=? 90))%nat then ascii_of_nat (n + 32) else c.

Fixpoint lower (s : string) : string :=
  match s with
  | EmptyString => EmptyString
  | String c t => String (lower_ascii c) (lower t)
  end.

Definition hex_digit (n : N) : ascii :=
  match n with
  | 0 => "0" | 1 => "1" | 2 => "2" | 3 => "3" | 4 => "4" | 5 => "5"
  | 6 => "6" | 7 => "7" | 8 => "8" | 9 => "9" | 10 => "a" | 11 => "b"
  | 12 => "c" | 13 => "d" | 14 => "e" | _ => "f"
  end%N.

Fixpoint hex_digits (len : nat) (n : N) (acc : string) : string :=
  match len with
  | O => acc
  | S len' =>
      hex_digits len' (n / 16)%N (String (hex_digit (n mod 16)%N) acc)
  end.

Definition uuid (k : nat) : string :=
  hex_digits 8 (N.of_nat k) EmptyString.

Definition platform : Platform :=
  {| uuid8 := uuid; path_suffix := suffix; str_lower := lower;
     path_str := λ p, p; path_name := name |}.

End Posix.


(** ** Vocabulary of the specification *)

(** The job state machine: dequeue, success, failure, external cancel. *)
Definition job_edge (a b : JobStatus) : bool :=
  match a, b with
  | PENDING, PROCESSING | PROCESSING, COMPLETED | PROCESSING, FAILED
  | PENDING, CANCELLED => true
  | _, _ => false
  end.


Definition batch_status_at (s : BatchProcessor) (b : nat) : option JobStatus :=
  batch_status <$> heap_batches s !! b.

(** One step respects a state machine when every object that exists
    before and after it keeps its status or follows an edge. *)
Definition job_moves_ok (s s' : BatchProcessor) : Prop :=
  ∀ r a b, job_status s r = Some a → job_status s' r = Some b →
           a = b ∨ job_edge a b = true.


(** The exception [_process_job] catches, if the collaborators raise one,
    with the value of [job.progress] at that moment: the collaborators are
    called in the order validate, export (only when invoices were found),
    move, after progress 30, 70 and 90. *)
Definition raised (o : outcome) : option (string * Z) :=
  match validate_pdf o with
  | Raises msg => Some (msg, 30)
  | Returns rep =>
      match (if 0 <? invoices_found rep then export_to_excel o
             else Returns EmptyString) with
      | Raises msg => Some (msg, 70)
      | Returns _ =>
          match shutil_move o with
          | Raises msg => Some (msg, 90)
          | Returns _ => None
          end
      end
  end.

Section Submission.
Context `{Platform}.

(** The paths [create_batch] accepts, in input order. *)
Definition accepted (s : BatchProcessor) (fps : list string) : list string :=
  filter (λ fp, path_exists fp s && is_pdf fp = true) fps.

(** The jobs built for accepted paths when the next identifier is the
    [e]-th draw and the clock reads [c]. *)
Fixpoint new_jobs (e c : nat) (fps : list string) : list PDFJob :=
  match fps with
  | [] => []
  | fp :: rest =>
      new_job (uuid8 e) (path_str fp) (path_name fp) c
        :: new_jobs (S e) (S c) rest
  end.

(** [self._jobs[job_id] = job] for each new job in turn. *)
Definition register_all (m : gmap string nat) (base : nat)
    (js : list PDFJob) : gmap string nat :=
  foldl (λ m p, <[p.1 := p.2]> m) m
        (zip (job_id <$> js) (seq base (length js))).

End Submission.

(** ** Invariants of the runs *)

(** The job and the batch the worker holds in its local variables. *)
Definition held (pc : worker_pc) : option nat :=
  match pc with
  | AtCheck job _ => job
  | AtBegin r _ | AtMarkBatch r _ | AtRun r _ | AtBatchDone r _ => Some r
  | _ => None
  end.

Definition held_batch (pc : worker_pc) : option nat :=
  match pc with
  | AtCheck _ b | AtBegin _ b | AtMarkBatch _ b | AtRun _ b
  | AtBatchDone _ b => b
  | _ => None
  end.

(** The queue entries not yet looked up: the tuple the worker has just
    taken, then the queue. *)
Definition entries (s : BatchProcessor) : list (option string * string) :=
  match worker s with AtLookup b j => [(b, j)] | _ => [] end ++ _queue s.

Definition drained (s : BatchProcessor) : Prop :=
  _queue s = [] ∧ worker s = AtGet.

Definition finished (st : option JobStatus) : Prop :=
  st = Some COMPLETED ∨ st = Some FAILED.

Section Invariants.
Context `{Platform}.

(** No collision among the first [n] identifiers drawn, none of them
    empty. *)
Definition distinct_ids (n : nat) : Prop :=
  NoDup (uuid8 <$> seq 0 n) ∧ EmptyString ∉ uuid8 <$> seq 0 n.

Definition is_cancel (a : action) : bool :=
  match a with CancelBatch _ => true | _ => false end.

Definition no_cancel (sched : list action) : bool :=
  forallb (λ a, negb (is_cancel a)) sched.

(** References point into the object stores, and the entries waiting
    carry identifiers that were drawn, each job identifier once. *)
Record wf (s : BatchProcessor) : Prop := {
  wf_jobs : ∀ jid r, _jobs s !! jid = Some r →
              (r < length (heap_jobs s))%nat;
  wf_batches : ∀ bid b, _batches s !! bid = Some b →
                 (b < length (heap_batches s))%nat;
  wf_held : ∀ r, held (worker s) = Some r → (r < length (heap_jobs s))%nat;
  wf_held_batch : ∀ b, held_batch (worker s) = Some b →
                    (b < length (heap_batches s))%nat;
  wf_entries : ∀ b j, (b, j) ∈ entries s →
                 ∃ k, (k < entropy s)%nat ∧ j = uuid8 k;
  wf_entries_batch : ∀ bid j, (Some bid, j) ∈ entries s →
                       ∃ k, (k < entropy s)%nat ∧ bid = uuid8 k;
  wf_nodup : NoDup (entries s).*2;
}.

(** The statuses job [r], enqueued under [jid], may have given where
    the worker is. *)
Definition allowed (s : BatchProcessor) (jid : string) (r : nat)
    : list JobStatus :=
  if decide (held (worker s) = Some r) then
    match worker s with
    | AtCheck _ _ | AtBegin _ _ => [PENDING]
    | AtMarkBatch _ _ | AtRun _ _ => [PROCESSING]
    | AtBatchDone _ _ => [COMPLETED; FAILED]
    | _ => []
    end
  else if decide (jid ∈ (entries s).*2) then [PENDING]
  else [COMPLETED; FAILED].

(** The batch drawn as identifier number [kb], stored at [batch], whose
    [n] jobs are stored from [base] on, while nobody cancels it. *)
Record inv (kb batch base n : nat) (s : BatchProcessor) : Prop := {
  inv_wf : wf s;
  inv_entropy : (S kb + n ≤ entropy s)%nat;
  inv_heap : (base + n ≤ length (heap_jobs s))%nat;
  inv_batch : _batches s !! uuid8 kb = Some batch;
  inv_jobs : ∀ i, (i < n)%nat →
               _jobs s !! uuid8 (S (kb + i)) = Some (base + i)%nat;
  inv_batch_obj : jobs <$> heap_batches s !! batch = Some (seq base n);
  inv_jobs_inj : ∀ jid i, (i < n)%nat →
                   _jobs s !! jid = Some (base + i)%nat →
                   jid = uuid8 (S (kb + i));
  inv_batch_inj : ∀ bid, _batches s !! bid = Some batch → bid = uuid8 kb;
  inv_entries_mine : ∀ b i, (i < n)%nat →
                       (b, uuid8 (S (kb + i))) ∈ entries s →
                       b = Some (uuid8 kb);
  inv_entries_batch : ∀ j, (Some (uuid8 kb), j) ∈ entries s →
                        ∃ i, (i < n)%nat ∧ j = uuid8 (S (kb + i));
  inv_held_batch : held_batch (worker s) = Some batch →
                     ∃ i, (i < n)%nat ∧
                          held (worker s) = Some (base + i)%nat;
  inv_phase : ∀ i, (i < n)%nat →
                ∃ st, job_status s (base + i) = Some st ∧
                      st ∈ allowed s (uuid8 (S (kb + i))) (base + i) ∧
                      (held (worker s) = Some (base + i)%nat →
                         (uuid8 (S (kb + i)) ∉ (entries s).*2) ∧
                         held_batch (worker s) = Some batch);
  inv_status : (∀ i, (i < n)%nat → finished (job_status s (base + i))) →
                 batch_status_at s batch = Some COMPLETED ∨
                 ∃ r, worker s = AtBatchDone r (Some batch);
}.

(** What a submission does to the processor: new objects behind the
    old ones, new dictionary keys and queue entries made of identifiers
    drawn by the submission itself. *)
Record extends (s s' : BatchProcessor) : Prop := {
  ext_worker : worker s' = worker s;
  ext_entropy : (entropy s ≤ entropy s')%nat;
  ext_heap_jobs : ∃ new, heap_jobs s' = heap_jobs s ++ new;
  ext_heap_batches : ∃ new, heap_batches s' = heap_batches s ++ new;
  ext_jobs : ∀ jid r, _jobs s' !! jid = Some r →
               _jobs s !! jid = Some r ∨
               (length (heap_jobs s) ≤ r)%nat;
  ext_jobs_old : ∀ k, (k < entropy s)%nat →
                   _jobs s' !! uuid8 k = _jobs s !! uuid8 k;
  ext_batches : ∀ bid b, _batches s' !! bid = Some b →
                  _batches s !! bid = Some b ∨
                  (length (heap_batches s) ≤ b)%nat;
  ext_batches_old : ∀ k, (k < entropy s)%nat →
                      _batches s' !! uuid8 k = _batches s !! uuid8 k;
  ext_entries : ∃ extra, entries s' = entries s ++ extra ∧
                  ∀ b j, (b, j) ∈ extra →
                    (∃ k, (entropy s ≤ k < entropy s')%nat ∧ j = uuid8 k) ∧
                    (∀ bid, b = Some bid →
                       ∃ k, (entropy s ≤ k < entropy s')%nat ∧
                            bid = uuid8 k);
}.

End Invariants.

(** ** Scenarios on the reference platform *)
Module Scenario.
#[local] Existing Instance Posix.platform.

Definition ok_report : PDFValidationReport := mkReport "acme" 2 true.

Definition all_ok : outcome :=
  mkOutcome (Returns ok_report) (Returns "out/a_invoices.xlsx") (Returns ()).

Definition api_down : outcome :=
  mkOutcome (Raises "Connection error.") (Returns EmptyString) (Returns ()).

Definition work (n : nat) : list action := replicate n (WorkerStep all_ok).

(** One uploaded file, submitted as a batch. *)
Definition submit_one : list action :=
  [Filesystem {["in/a.pdf"]}; CreateBatch ["in/a.pdf"]].

(** The worker has dequeued the job, looked it up and found it not
    cancelled (line 321); [cancel_batch] runs before line 346. *)
Definition cancel_after_check : list action :=
  submit_one ++ work 3 ++ [CancelBatch "00000000"].



(** Fifty uploaded files in one batch; the worker has finished 29. *)
Definition fifty_paths : list string :=
  (λ k, "in/" +:+ Posix.uuid k +:+ ".pdf") <$> seq 0 50.

Definition fifty_files : list action :=
  [Filesystem (list_to_set fifty_paths); CreateBatch fifty_paths]
  ++ work (29 * 8).

End Scenario.

(** * Properties *)

Ltac unfold_M :=
  unfold mbind, M_bind, mret, M_ret, get, modify, raise, uuid4_8,
    datetime_now, alloc_job, alloc_batch, start, exec in *.

Section Properties.
Context `{Platform}.

Lemma length_new_jobs e c fps : length (new_jobs e c fps) = length fps.
Proof. revert e c. induction fps; intros; simpl; [done|]. by rewrite IHfps. Qed.

Lemma create_jobs_effect batch fps s b :
  heap_batches s !! batch = Some b →
  let js := new_jobs (entropy s) (clock s) (accepted s fps) in
  create_jobs batch fps s =
  (Return (),
   mkProcessor (heap_jobs s ++ js)
     (<[batch := mkBatchJob (batch_id b)
                   (jobs b ++ seq (length (heap_jobs s)) (length js))
                   (batch_created_at b) (batch_status b)]> (heap_batches s))
     (_batches s) (register_all (_jobs s) (length (heap_jobs s)) js)
     (_queue s) (_is_running s) (worker s)
     (clock s + length js)%nat (entropy s + length js)%nat
     (files s) (log s)).
Proof.
  revert s b. induction fps as [|fp fps IH]; intros s b Hb.
  - cbn. unfold_M. f_equal. destruct s; cbn in *. f_equal; try lia.
    + by rewrite app_nil_r.
    + rewrite app_nil_r. destruct b; cbn. by rewrite list_insert_id.
  - cbn [create_jobs]. unfold accepted. rewrite filter_cons.
    unfold_M. cbn [fst snd].
    destruct (path_exists fp s && is_pdf fp) eqn:Hok.
    + rewrite decide_True by done. cbn.
      erewrite IH; cycle 1.
      { cbn. rewrite list_lookup_alter_eq, Hb. done. }
      cbn. f_equal. unfold accepted, path_exists. cbn.
      f_equal.
      * by rewrite <- app_assoc.
      * rewrite length_app. cbn.
        apply list_eq. intros i. destruct (decide (i = batch)) as [->|Hne].
        -- rewrite !list_lookup_insert_eq; rewrite ?length_alter; try by eapply lookup_lt_Some.
           f_equal. f_equal. rewrite <- app_assoc. cbn. do 3 f_equal. lia.
        -- rewrite !list_lookup_insert_ne by done.
           by rewrite list_lookup_alter_ne.
      * unfold register_all. cbn. rewrite length_app. cbn.
        do 3 f_equal. lia.
      * lia.
      * lia.
    + rewrite decide_False by done. cbn. by apply IH.
Qed.

Lemma omap_lookup_seq {A B} (f : A → B) (h l : list A) :
  omap (λ r, f <$> (h ++ l) !! r) (seq (length h) (length l)) = f <$> l.
Proof.
  revert h. induction l as [|x l IH]; intros h; [done|].
  cbn. rewrite list_lookup_middle by done. cbn. f_equal.
  specialize (IH (h ++ [x])). rewrite length_app in IH. cbn in IH.
  rewrite <- app_assoc in IH. cbn in IH.
  by replace (S (length h)) with (length h + 1)%nat by lia.
Qed.

Lemma create_batch_effect fps s :
  let bid := uuid8 (entropy s) in
  let js := new_jobs (S (entropy s)) (S (clock s)) (accepted s fps) in
  create_batch fps s =
  (Return (length (heap_batches s)),
   mkProcessor (heap_jobs s ++ js)
     (heap_batches s ++
        [mkBatchJob bid (seq (length (heap_jobs s)) (length js))
                    (clock s) PENDING])
     (<[bid := length (heap_batches s)]> (_batches s))
     (register_all (_jobs s) (length (heap_jobs s)) js)
     (_queue s ++ ((λ j, (Some bid, job_id j)) <$> js))
     true (worker s)
     (S (clock s) + length js)%nat (S (entropy s) + length js)%nat
     (files s) (log s)).
Proof.
  intros bid js. unfold create_batch.
  unfold mbind at 1 2 3 4, M_bind at 1 2 3 4. unfold_M. cbn [fst snd].
  cbn.
  erewrite create_jobs_effect; cycle 1.
  { cbn. apply list_lookup_middle. done. }
  cbn. unfold accepted, path_exists. cbn. fold (accepted s fps). fold js.
  rewrite insert_app_r_alt by done. rewrite Nat.sub_diag. cbn.
  unfold jobs_of. cbn. rewrite list_lookup_middle by done. cbn.
  rewrite omap_lookup_seq.
  destruct (_is_running s); cbn; done.
Qed.


Lemma cancel_all_lookup (f : PDFJob → PDFJob) (rs : list nat) (h : list PDFJob) (r : nat) :
  (∀ j, f (f j) = f j) →
  foldl (λ h r, alter f r h) h rs !! r
  = if decide (r ∈ rs) then f <$> h !! r else h !! r.
Proof.
  intros Hf. revert h. induction rs as [|r' rs IH]; intros h.
  - rewrite decide_False; [done|]. by intros ?%elem_of_nil.
  - cbn [foldl]. rewrite IH. destruct (decide (r = r')) as [->|Hne].
    + rewrite list_lookup_alter_eq.
      rewrite (decide_True (P := r' ∈ r' :: rs)) by apply list_elem_of_here.
      destruct (decide (r' ∈ rs)); [|done].
      destruct (h !! r'); cbn; [by rewrite Hf|done].
    + rewrite list_lookup_alter_ne by done.
      apply decide_ext. rewrite elem_of_cons. split; [by right|].
      by intros [?|?].
Qed.

Lemma cancel_if_pending_idem j :
  cancel_if_pending (cancel_if_pending j) = cancel_if_pending j.
Proof. unfold cancel_if_pending. destruct j as [? ? ? []]; simpl; done. Qed.

(** C3. [cancel_batch] on an unknown id returns [False] and changes
    nothing.  On the id of a batch it returns [True]; every job of the
    batch that was Pending is the same job with status Cancelled, every
    job that was not Pending (Processing or terminal) and every job
    outside the batch is untouched, the batch is the same batch with
    status Cancelled, and nothing else in the processor changes. *)
Theorem cancel_batch_spec (s : BatchProcessor) (bid : string) :
  (_batches s !! bid = None → cancel_batch bid s = (Return false, s)) ∧
  (∀ β b, _batches s !! bid = Some β → heap_batches s !! β = Some b →
     ∃ s', cancel_batch bid s = (Return true, s') ∧
       (∀ r j, r ∈ jobs b → heap_jobs s !! r = Some j → status j = PENDING →
          heap_jobs s' !! r = Some (set_status CANCELLED j)) ∧
       (∀ r j, heap_jobs s !! r = Some j → status j ≠ PENDING →
          heap_jobs s' !! r = Some j) ∧
       (∀ r, r ∉ jobs b → heap_jobs s' !! r = heap_jobs s !! r) ∧
       heap_batches s' !! β = Some (set_batch_status CANCELLED b) ∧
       (∀ β', β' ≠ β → heap_batches s' !! β' = heap_batches s !! β') ∧
       _batches s' = _batches s ∧ _jobs s' = _jobs s ∧
       _queue s' = _queue s ∧ worker s' = worker s ∧ log s' = log s).
Proof.
  split.
  - intros Hn. unfold cancel_batch. by rewrite Hn.
  - intros β b Hb Hβ. unfold cancel_batch. rewrite Hb.
    eexists. split; [reflexivity|]. unfold jobs_of. rewrite Hβ. simpl.
    split_and!; try done.
    + intros r j Hr Hj Hst. rewrite cancel_all_lookup by apply cancel_if_pending_idem.
      rewrite decide_True by done. rewrite Hj. simpl.
      unfold cancel_if_pending. by rewrite decide_True.
    + intros r j Hj Hst. rewrite cancel_all_lookup by apply cancel_if_pending_idem.
      case_decide; [|done]. rewrite Hj. simpl.
      unfold cancel_if_pending. by rewrite decide_False.
    + intros r Hr. rewrite cancel_all_lookup by apply cancel_if_pending_idem.
      by rewrite decide_False.
    + rewrite list_lookup_alter_eq. by rewrite Hβ.
    + intros β' Hne. by rewrite list_lookup_alter_ne.
Qed.

(** C9. For an id that is not registered, [get_job] and [get_batch]
    return [None] normally, not an exception, and leave the processor
    as it was. *)
Theorem lookup_unknown_id (s : BatchProcessor) (id : string) :
  (_jobs s !! id = None → get_job id s = (Return None, s)) ∧
  (_batches s !! id = None → get_batch id s = (Return None, s)).
Proof. unfold get_job, get_batch. split; intros ->; done. Qed.






(** C5. At the test of line 321, a missing job or a job whose status is
    Cancelled sends the worker straight back to [get] with nothing else
    changed.  Hence an iteration that dequeues an entry whose job is
    missing or Cancelled leaves the processor as it was but for the
    entry removed: no task executed, no status changed, no sleep, and
    the worker ready to dequeue the next entry. *)
Theorem worker_skips_missing_or_cancelled (s : BatchProcessor) :
  _is_running s = true →
  (∀ job batch o, worker s = AtCheck job batch →
     (job = None ∨ ∃ r, job = Some r ∧ job_status s r = Some CANCELLED) →
     worker_step o s = set_worker AtGet s) ∧
  (∀ bid jid q o1 o2 o3, worker s = AtGet → _queue s = (bid, jid) :: q →
     (_jobs s !! jid = None ∨
      ∃ r, _jobs s !! jid = Some r ∧ job_status s r = Some CANCELLED) →
     worker_step o3 (worker_step o2 (worker_step o1 s)) = set_queue q s).
Proof.
  intros Hrun. split.
  - intros job batch o Hpc Hjob. unfold worker_step. rewrite Hrun, Hpc. cbn.
    destruct Hjob as [->|(r & -> & Hst)]; [done|]. by rewrite decide_True.
  - intros bid jid q o1 o2 o3 Hpc Hq Hjob.
    destruct s as [hj hb bs js qu run pc cl en fs lg]. cbn in *. subst.
    unfold worker_step. cbn.
    destruct Hjob as [->|(r & -> & Hst)]; cbn; [done|].
    unfold job_status in *. cbn in *. by rewrite decide_True.
Qed.


Lemma run_job_frame o r s :
  heap_batches (run_job o r s) = heap_batches s ∧
  _batches (run_job o r s) = _batches s ∧
  _jobs (run_job o r s) = _jobs s ∧
  _queue (run_job o r s) = _queue s ∧
  _is_running (run_job o r s) = _is_running s ∧
  worker (run_job o r s) = worker s ∧
  entropy (run_job o r s) = entropy s ∧
  files (run_job o r s) = files s ∧
  length (heap_jobs (run_job o r s)) = length (heap_jobs s) ∧
  (∀ r', r' ≠ r → heap_jobs (run_job o r s) !! r' = heap_jobs s !! r').
Proof.
  unfold run_job, finish_job, complete_job, fail_job, tick, update_job.
  repeat case_match; cbn;
    rewrite ?length_alter; split_and!; try done;
    intros; by rewrite ?list_lookup_alter_ne by done.
Qed.

Lemma run_job_raised o r s j msg p :
  heap_jobs s !! r = Some j → raised o = Some (msg, p) →
  ∃ j', heap_jobs (run_job o r s) !! r = Some j' ∧ status j' = FAILED ∧
        error j' = Some msg ∧ is_Some (completed_at j') ∧
        progress j' = p ∧ job_id j' = job_id j.
Proof.
  intros Hj.
  unfold raised, run_job, finish_job, complete_job, fail_job, tick, update_job.
  repeat case_match; cbn; intros; simplify_eq;
    rewrite ?list_lookup_alter_eq, Hj; by eexists.
Qed.

Lemma worker_leaves_batch_done s r batch o1 o2 :
  _is_running s = true → worker s = AtBatchDone r batch →
  worker (worker_step o2 (worker_step o1 s)) = AtGet.
Proof.
  intros Hrun Hpc. unfold worker_step at 2. rewrite Hrun, Hpc. cbn.
  unfold worker_step.
  destruct batch as [b|]; [destruct (all_done s b)|]; cbn; by rewrite Hrun.
Qed.

(** C8. When a collaborator raises while a job runs (validation, export
    or the final move), the job ends Failed with the exception's message
    as its error and [completed_at] set; its progress is the value
    written last before the exception (30, 70 or 90); no other job, no
    batch, no dictionary and no queue entry is touched; the worker goes
    on to the batch check and is back at [get] two steps later.  The
    step is a total function: nothing escapes it. *)
Theorem task_error_fails_job (s : BatchProcessor) (o : outcome)
    (r : nat) (batch : option nat) (j : PDFJob) (msg : string) (p : Z) :
  _is_running s = true → worker s = AtRun r batch →
  heap_jobs s !! r = Some j → raised o = Some (msg, p) →
  let s' := worker_step o s in
  (∃ j', heap_jobs s' !! r = Some j' ∧ status j' = FAILED ∧
         error j' = Some msg ∧ is_Some (completed_at j') ∧
         progress j' = p ∧ job_id j' = job_id j) ∧
  (∀ r', r' ≠ r → heap_jobs s' !! r' = heap_jobs s !! r') ∧
  heap_batches s' = heap_batches s ∧ _queue s' = _queue s ∧
  _jobs s' = _jobs s ∧ _batches s' = _batches s ∧
  _is_running s' = true ∧ worker s' = AtBatchDone r batch ∧
  (∀ o1 o2, worker (worker_step o2 (worker_step o1 s')) = AtGet).
Proof.
  intros Hrun Hpc Hj Hraised s'.
  assert (Hs' : s' = set_worker (AtBatchDone r batch) (run_job o r s)).
  { subst s'. unfold worker_step. by rewrite Hrun, Hpc. }
  clearbody s'. subst s'.
  destruct (run_job_frame o r s) as (Hb & Hbs & Hjs & Hq & Hr & _ & _ & _ & _ & Hother).
  split_and!; cbn; try congruence.
  - by eapply run_job_raised.
  - done.
  - intros o1 o2. eapply worker_leaves_batch_done; cbn; [congruence|done].
Qed.


Lemma new_jobs_lookup e c vs i :
  new_jobs e c vs !! i
  = (λ fp, new_job (uuid8 (e + i)) (path_str fp) (path_name fp) (c + i))
      <$> vs !! i.
Proof.
  revert e c i. induction vs as [|fp vs IH]; intros e c [|i]; cbn; try done.
  - by rewrite !Nat.add_0_r.
  - rewrite IH. by rewrite <- !Nat.add_succ_comm.
Qed.

Lemma new_jobs_ids e c vs :
  job_id <$> new_jobs e c vs = uuid8 <$> seq e (length vs).
Proof.
  revert e c. induction vs as [|fp vs IH]; intros e c; cbn; [done|].
  by rewrite IH.
Qed.

Lemma foldl_insert_notin (m : gmap string nat) (kvs : list (string * nat)) k :
  k ∉ kvs.*1 → foldl (λ m p, <[p.1:=p.2]> m) m kvs !! k = m !! k.
Proof.
  revert m. induction kvs as [|[k0 v0] kvs IH]; intros m Hk; [done|].
  cbn in *. apply not_elem_of_cons in Hk as [Hne Hk].
  rewrite IH by done. by rewrite lookup_insert_ne.
Qed.

Lemma foldl_insert_in (m : gmap string nat) (kvs : list (string * nat)) k v :
  NoDup kvs.*1 → (k, v) ∈ kvs →
  foldl (λ m p, <[p.1:=p.2]> m) m kvs !! k = Some v.
Proof.
  revert m. induction kvs as [|[k0 v0] kvs IH]; intros m Hnd Hin.
  - by apply elem_of_nil in Hin.
  - cbn in *. apply NoDup_cons in Hnd as [Hk0 Hnd].
    apply elem_of_cons in Hin as [Heq|Hin].
    + simplify_eq. rewrite foldl_insert_notin by done.
      by rewrite lookup_insert_eq.
    + by apply IH.
Qed.

Lemma register_all_old m base e c vs k :
  k ∉ uuid8 <$> seq e (length vs) →
  register_all m base (new_jobs e c vs) !! k = m !! k.
Proof.
  intros Hk. unfold register_all. apply foldl_insert_notin.
  rewrite fst_zip; [by rewrite new_jobs_ids|].
  by rewrite length_fmap, length_seq.
Qed.

Lemma register_all_new m base e c vs i :
  NoDup (uuid8 <$> seq e (length vs)) → (i < length vs)%nat →
  register_all m base (new_jobs e c vs) !! uuid8 (e + i)
  = Some (base + i)%nat.
Proof.
  intros Hnd Hi. unfold register_all. apply foldl_insert_in.
  - rewrite fst_zip; [by rewrite new_jobs_ids|].
    by rewrite length_fmap, length_seq.
  - apply list_elem_of_lookup. exists i.
    rewrite lookup_zip_with, new_jobs_ids, length_new_jobs.
    rewrite list_lookup_fmap, !lookup_seq_lt by done. done.
Qed.


Lemma add_single_job_effect fp s :
  add_single_job fp s =
  if negb (path_exists fp s) then
    (Raise (FileNotFoundError ("File not found: " +:+ fp)), s)
  else if negb (is_pdf fp) then
    (Raise (ValueError "Only PDF files are allowed"), s)
  else
    (Return (length (heap_jobs s)),
     mkProcessor
       (heap_jobs s ++ [new_job (uuid8 (entropy s)) (path_str fp)
                          (path_name fp) (clock s)])
       (heap_batches s) (_batches s)
       (<[uuid8 (entropy s) := length (heap_jobs s)]> (_jobs s))
       (_queue s ++ [(None, uuid8 (entropy s))])
       true (worker s) (S (clock s)) (S (entropy s)) (files s) (log s)).
Proof.
  unfold add_single_job. unfold_M.
  destruct (path_exists fp s), (is_pdf fp); cbn; try done.
  destruct s as [? ? ? ? ? [] ? ? ? ? ?]; done.
Qed.


Lemma count_jobs_split (js : list PDFJob) :
  count_jobs (λ st, bool_decide (st = COMPLETED)) js
  + count_jobs (λ st, bool_decide (st = FAILED)) js
  = count_jobs (λ st, bool_decide (st ∈ [COMPLETED; FAILED])) js.
Proof.
  unfold count_jobs. induction js as [|j js IH]; [done|].
  cbn.
  assert (Hmem : ∀ st, bool_decide (st ∈ [COMPLETED; FAILED])
                 = bool_decide (st = COMPLETED) || bool_decide (st = FAILED))
    by (by intros []; vm_compute).
  rewrite Hmem.
  destruct (status j); repeat case_bool_decide; try done; cbn; lia.
Qed.

End Properties.


(** * Draining a batch *)

Ltac norm_entries Hpc :=
  unfold entries in *; rewrite ?Hpc in *; cbn in *.

Section Drain.
Context `{Platform}.
Local Open Scope nat_scope.

Lemma distinct_ids_inj E i j :
  distinct_ids E → i < E → j < E → uuid8 i = uuid8 j → i = j.
Proof.
  intros [Hnd _] Hi Hj Heq.
  eapply NoDup_lookup; [exact Hnd| |].
  - rewrite list_lookup_fmap, lookup_seq_lt by done. done.
  - rewrite list_lookup_fmap, lookup_seq_lt by done. cbn. by rewrite Heq.
Qed.

Lemma distinct_ids_nonempty E i :
  distinct_ids E → i < E → uuid8 i ≠ EmptyString.
Proof.
  intros [_ Hne] Hi Heq. apply Hne. rewrite <- Heq.
  apply list_elem_of_fmap. exists i. split; [done|].
  apply elem_of_seq. lia.
Qed.

Lemma foldl_insert_Some (m : gmap string nat) (kvs : list (string * nat)) k v :
  foldl (λ m p, <[p.1:=p.2]> m) m kvs !! k = Some v →
  m !! k = Some v ∨ (k, v) ∈ kvs.
Proof.
  revert m. induction kvs as [|[k0 v0] kvs IH]; intros m Hl; [by left|].
  cbn in Hl. apply IH in Hl as [Hl|Hl].
  - apply lookup_insert_Some in Hl as [[-> ->]|[_ Hl]].
    + right. apply list_elem_of_here.
    + by left.
  - right. by apply list_elem_of_further.
Qed.

Lemma register_all_Some m base e c vs k r :
  register_all m base (new_jobs e c vs) !! k = Some r →
  m !! k = Some r ∨
  ∃ i, i < length vs ∧ k = uuid8 (e + i) ∧ r = base + i.
Proof.
  intros Hl. apply foldl_insert_Some in Hl as [Hl|Hl]; [by left|right].
  apply list_elem_of_lookup in Hl as [i Hi].
  rewrite lookup_zip_with, new_jobs_ids, length_new_jobs in Hi.
  rewrite list_lookup_fmap in Hi.
  destruct (decide (i < length vs)) as [Hlt|Hge].
  - rewrite !lookup_seq_lt in Hi by done. cbn in Hi. simplify_eq. eauto.
  - rewrite !lookup_seq_ge in Hi by lia. cbn in Hi. done.
Qed.

Lemma length_foldl_alter {A} (f : A → A) (rs : list nat) (h : list A) :
  length (foldl (λ h r, alter f r h) h rs) = length h.
Proof.
  revert h. induction rs as [|r rs IH]; intros h; [done|].
  cbn. by rewrite IH, length_alter.
Qed.

Lemma entropy_mono a s : entropy s ≤ entropy (apply_action a s).
Proof.
  destruct a as [fps|fp|bid|o|fs]; cbn.
  - unfold exec. rewrite create_batch_effect. cbn. lia.
  - unfold exec. rewrite add_single_job_effect.
    repeat case_match; cbn; lia.
  - unfold exec, cancel_batch. by case_match.
  - unfold worker_step. repeat case_match; cbn; try lia.
    by destruct (run_job_frame o job s) as (_&_&_&_&_&_&->&_).
  - done.
Qed.

Lemma entropy_mono_run sched s : entropy s ≤ entropy (run sched s).
Proof.
  revert s. induction sched as [|a sched IH]; intros s; [done|].
  cbn. etrans; [apply (entropy_mono a)|apply IH].
Qed.

Lemma wf_init : wf init.
Proof.
  split; cbn; try done.
  - intros b j Hin. by apply elem_of_nil in Hin.
  - intros b j Hin. by apply elem_of_nil in Hin.
  - apply NoDup_nil_2.
Qed.

Lemma worker_step_frame o s :
  let s' := worker_step o s in
  _jobs s' = _jobs s ∧ _batches s' = _batches s ∧
  entropy s' = entropy s ∧ _is_running s' = _is_running s ∧
  length (heap_jobs s') = length (heap_jobs s) ∧
  length (heap_batches s') = length (heap_batches s) ∧
  (∀ b, jobs <$> heap_batches s' !! b = jobs <$> heap_batches s !! b) ∧
  sublist (entries s') (entries s) ∧
  (∀ r, held (worker s') = Some r →
        held (worker s) = Some r ∨ ∃ jid, _jobs s !! jid = Some r) ∧
  (∀ b, held_batch (worker s') = Some b →
        held_batch (worker s) = Some b ∨ ∃ bid, _batches s !! bid = Some b).
Proof.
  cbn zeta. unfold worker_step, entries.
  destruct (_is_running s) eqn:Hrun; cbn; [|by split_and!; eauto].
  destruct (worker s) as [|bid jid|job bt|r bt|r bt|r bt|r bt|] eqn:Hpc; cbn.
  - destruct (_queue s) as [|[bid jid] q] eqn:Hq; cbn;
      rewrite ?Hpc, ?Hq; split_and!; eauto.
  - split_and!; eauto using sublist_cons.
    intros b Hb. right. destruct (truthy bid); cbn in *; [eauto|done].
  - destruct job as [r|]; [case_decide|]; cbn; rewrite ?Hrun;
      split_and!; eauto; done.
  - rewrite length_alter. split_and!; eauto.
  - destruct bt as [b|]; cbn; rewrite ?Hrun, ?length_alter;
      split_and!; eauto.
    intros b'. destruct (decide (b = b')) as [->|Hne].
    + rewrite list_lookup_alter_eq. by destruct (heap_batches s !! b').
    + by rewrite list_lookup_alter_ne.
  - destruct (run_job_frame o r s)
      as (Hb & Hbs & Hjs & Hq & Hr & _ & He & _ & Hl & _).
    rewrite Hb, Hbs, Hjs, Hq, Hr, He, Hl. split_and!; eauto.
  - destruct bt as [b|]; [destruct (all_done s b)|]; cbn;
      rewrite ?Hrun, ?length_alter; split_and!; eauto; try done.
    intros b'. destruct (decide (b = b')) as [->|Hne].
    + rewrite list_lookup_alter_eq. by destruct (heap_batches s !! b').
    + by rewrite list_lookup_alter_ne.
  - destruct (_queue s) as [|[bid jid] q] eqn:Hq; cbn;
      rewrite ?Hrun, ?Hq; split_and!; eauto; done.
Qed.

Lemma entries_append s s' extra :
  worker s' = worker s → _queue s' = _queue s ++ extra →
  entries s' = entries s ++ extra.
Proof. unfold entries. intros -> ->. by rewrite app_assoc. Qed.

Lemma new_entries_ids (bid : string) e c vs :
  ((λ j, (Some bid, job_id j)) <$> new_jobs e c vs).*2
  = uuid8 <$> seq e (length vs).
Proof. rewrite <- list_fmap_compose. apply new_jobs_ids. Qed.

Lemma new_entry_inv (bid : string) e c vs b j :
  (b, j) ∈ (λ j, (Some bid, job_id j)) <$> new_jobs e c vs →
  b = Some bid ∧ ∃ i, i < length vs ∧ j = uuid8 (e + i).
Proof.
  intros (x & Heq & Hx)%list_elem_of_fmap. simplify_eq. split; [done|].
  apply list_elem_of_lookup in Hx as [i Hi].
  rewrite new_jobs_lookup in Hi.
  destruct (vs !! i) eqn:Hv; cbn in Hi; simplify_eq.
  exists i. split; [by eapply lookup_lt_Some|done].
Qed.

Lemma NoDup_fresh_ids E e n :
  distinct_ids E → e + n ≤ E → NoDup (uuid8 <$> seq e n).
Proof.
  intros Hd Hle. apply NoDup_fmap_2_strong; [|apply NoDup_seq].
  intros x y Hx%elem_of_seq Hy%elem_of_seq.
  apply (distinct_ids_inj E); [done|lia|lia].
Qed.

Lemma wf_step E a s :
  distinct_ids E → wf s → entropy (apply_action a s) ≤ E →
  wf (apply_action a s).
Proof.
  intros Hd Hwf HE. destruct a as [fps|fp|bid|o|fs]; cbn in *.
  - unfold exec in *. rewrite create_batch_effect in *. cbn in HE.
    set (vs := accepted s fps) in *.
    rewrite length_new_jobs in HE.
    match goal with |- wf ?s1 => 
      assert (Hent : entries s1 = entries s ++
        ((λ j, (Some (uuid8 (entropy s)), job_id j)) <$>
           new_jobs (S (entropy s)) (S (clock s)) vs))
        by by apply entries_append end.
    split; rewrite ?Hent; cbn; rewrite ?length_app, ?length_new_jobs.
    + intros jid r [Hl|(i & Hi & -> & ->)]%register_all_Some.
      * apply (wf_jobs _ Hwf) in Hl. lia.
      * lia.
    + intros bid b [[_ <-]|[_ Hl]]%lookup_insert_Some; cbn; [lia|].
      apply (wf_batches _ Hwf) in Hl. lia.
    + intros r Hr. apply (wf_held _ Hwf) in Hr. lia.
    + intros b Hb. apply (wf_held_batch _ Hwf) in Hb. lia.
    + intros b j [Hin|Hin]%elem_of_app.
      * apply (wf_entries _ Hwf) in Hin as (k & Hk & ->). exists k.
        split; [lia|done].
      * apply new_entry_inv in Hin as (_ & i & Hi & ->).
        eexists. split; [|done]. lia.
    + intros bid j [Hin|Hin]%elem_of_app.
      * apply (wf_entries_batch _ Hwf) in Hin as (k & Hk & ->). exists k.
        split; [lia|done].
      * apply new_entry_inv in Hin as (Hb & _). simplify_eq.
        eexists. split; [|done]. lia.
    + rewrite fmap_app, new_entries_ids. apply NoDup_app. split_and!.
      * apply (wf_nodup _ Hwf).
      * intros j ((b & j') & Hj & Hin)%list_elem_of_fmap.
        intros (k' & Hj' & Hk'%elem_of_seq)%list_elem_of_fmap.
        apply (wf_entries _ Hwf) in Hin as (k & Hk & Heq).
        cbn in Hj. simplify_eq.
        apply (distinct_ids_inj E) in Hj'; [lia|done|lia|lia].
      * apply (NoDup_fresh_ids E); [done|lia].
  - unfold exec in *. rewrite add_single_job_effect in *.
    destruct (negb (path_exists fp s)); [done|].
    destruct (negb (is_pdf fp)); [done|]. cbn in HE.
    match goal with |- wf ?s1 => 
      assert (Hent : entries s1 = entries s ++ [(None, uuid8 (entropy s))])
        by by apply entries_append end.
    split; rewrite ?Hent; cbn; rewrite ?length_app; cbn.
    + intros jid r [[_ <-]|[_ Hl]]%lookup_insert_Some; [lia|].
      apply (wf_jobs _ Hwf) in Hl. lia.
    + apply (wf_batches _ Hwf).
    + intros r Hr. apply (wf_held _ Hwf) in Hr. lia.
    + apply (wf_held_batch _ Hwf).
    + intros b j [Hin|Hin%list_elem_of_singleton]%elem_of_app.
      * apply (wf_entries _ Hwf) in Hin as (k & Hk & ->). exists k.
        split; [lia|done].
      * simplify_eq. eexists. split; [|done]. lia.
    + intros bid j [Hin|Hin%list_elem_of_singleton]%elem_of_app; [|done].
      apply (wf_entries_batch _ Hwf) in Hin as (k & Hk & ->). exists k.
      split; [lia|done].
    + rewrite fmap_app. cbn. apply NoDup_app. split_and!.
      * apply (wf_nodup _ Hwf).
      * intros j ((b & j') & Hj & Hin)%list_elem_of_fmap.
        intros Heq%list_elem_of_singleton.
        apply (wf_entries _ Hwf) in Hin as (k & Hk & Hj').
        cbn in Hj. simplify_eq.
        apply (distinct_ids_inj E) in Heq; [lia|done|lia|lia].
      * apply NoDup_singleton.
  - unfold exec, cancel_batch in *.
    destruct (_batches s !! bid) as [b|]; cbn; [|done].
    destruct Hwf. split; unfold entries in *; cbn;
      rewrite ?length_alter, ?length_foldl_alter; done.
  - destruct (worker_step_frame o s)
      as (Hjs & Hbs & He & _ & Hlj & Hlb & _ & Hsub & Hheld & Hheldb).
    split; rewrite ?Hjs, ?Hbs, ?He, ?Hlj, ?Hlb.
    + apply (wf_jobs _ Hwf).
    + apply (wf_batches _ Hwf).
    + intros r [Hr|[jid Hr]]%Hheld;
        [by apply (wf_held _ Hwf)|by eapply (wf_jobs _ Hwf)].
    + intros b [Hb|[bid Hb]]%Hheldb;
        [by apply (wf_held_batch _ Hwf)|by eapply (wf_batches _ Hwf)].
    + intros b j Hin. eapply (wf_entries _ Hwf), elem_of_sublist; done.
    + intros b j Hin.
      eapply (wf_entries_batch _ Hwf), elem_of_sublist; done.
    + eapply sublist_NoDup; [apply (wf_nodup _ Hwf)|].
      by apply fmap_sublist.
  - destruct Hwf. split; done.
Qed.

Lemma wf_run E sched s :
  distinct_ids E → wf s → entropy (run sched s) ≤ E → wf (run sched s).
Proof.
  intros Hd. revert s. induction sched as [|a sched IH]; intros s Hwf HE;
    [done|].
  cbn in *. apply IH; [|done].
  eapply wf_step; [done..|].
  etrans; [apply entropy_mono_run|done].
Qed.

Lemma create_batch_extends E fps s :
  distinct_ids E → entropy (exec (create_batch fps) s) ≤ E →
  extends s (exec (create_batch fps) s).
Proof.
  intros Hd HE. unfold exec in *. rewrite create_batch_effect in *.
  cbn in HE. set (vs := accepted s fps) in *.
  rewrite length_new_jobs in HE.
  split; cbn; rewrite ?length_new_jobs; eauto; try lia.
  - intros jid r [Hl|(i & Hi & -> & ->)]%register_all_Some; [by left|].
    right. lia.
  - intros k Hk. apply register_all_old.
    intros (k' & Heq & Hk'%elem_of_seq)%list_elem_of_fmap.
    apply (distinct_ids_inj E) in Heq; [lia|done|lia|lia].
  - intros bid b [[_ <-]|[_ Hl]]%lookup_insert_Some; [by right|by left].
  - intros k Hk. apply lookup_insert_ne. intros Heq.
    apply (distinct_ids_inj E) in Heq; [lia|done|lia|lia].
  - eexists. split; [unfold entries; by rewrite app_assoc|].
    intros b j (-> & i & Hi & ->)%new_entry_inv. split.
    + eexists. split; [|done]. lia.
    + intros bid [= <-]. eexists. split; [|done]. lia.
Qed.

Lemma extends_refl s : extends s s.
Proof.
  split; eauto; try (exists []; by rewrite app_nil_r).
  exists []. split; [by rewrite app_nil_r|]. intros ?? []%elem_of_nil.
Qed.

Lemma add_single_job_extends E fp s :
  distinct_ids E → entropy (exec (add_single_job fp) s) ≤ E →
  extends s (exec (add_single_job fp) s).
Proof.
  intros Hd HE. unfold exec in *. rewrite add_single_job_effect in *.
  destruct (negb (path_exists fp s)); cbn in *; [apply extends_refl|].
  destruct (negb (is_pdf fp)); cbn in *; [apply extends_refl|].
  split; cbn; eauto; try lia.
  - exists []. by rewrite app_nil_r.
  - intros jid r [[_ <-]|[_ Hl]]%lookup_insert_Some; [by right|by left].
  - intros k Hk. apply lookup_insert_ne. intros Heq.
    apply (distinct_ids_inj E) in Heq; [lia|done|lia|lia].
  - eexists. split; [unfold entries; by rewrite app_assoc|].
    intros b j [= -> ->]%list_elem_of_singleton. split; [|done].
    eexists. split; [|done]. lia.
Qed.

Lemma inv_extends E kb batch base n s s' :
  distinct_ids E → entropy s' ≤ E → extends s s' → wf s' →
  inv kb batch base n s → inv kb batch base n s'.
Proof.
  intros Hd HE [Hw He [nj Hhj] [nb Hhb] Hj Hjo Hb Hbo (extra & Hent & Hex)]
    Hwf' Hinv.
  pose proof (inv_entropy _ _ _ _ _ Hinv) as Hkb.
  pose proof (inv_heap _ _ _ _ _ Hinv) as Hheap.
  pose proof (wf_batches _ (inv_wf _ _ _ _ _ Hinv) _ _
                (inv_batch _ _ _ _ _ Hinv)) as Hlt.
  assert (Hmine : ∀ b i, i < n → (b, uuid8 (S (kb + i))) ∈ entries s' →
                  (b, uuid8 (S (kb + i))) ∈ entries s).
  { intros b i Hi. rewrite Hent. intros [Hin|Hin]%elem_of_app; [done|].
    apply Hex in Hin as [(k & Hk & Heq) _].
    apply (distinct_ids_inj E) in Heq; [lia|done|lia|lia]. }
  assert (Hmem : ∀ i, i < n → uuid8 (S (kb + i)) ∈ (entries s').*2 ↔
                              uuid8 (S (kb + i)) ∈ (entries s).*2).
  { intros i Hi. split.
    - intros ([b j] & Hj' & Hin)%list_elem_of_fmap. cbn in Hj'. subst j.
      apply Hmine in Hin; [|done].
      apply list_elem_of_fmap. by exists (b, uuid8 (S (kb + i))).
    - rewrite Hent, fmap_app, elem_of_app. by left. }
  assert (Hst : ∀ i, i < n →
                job_status s' (base + i) = job_status s (base + i)).
  { intros i Hi. unfold job_status. rewrite Hhj.
    rewrite lookup_app_l by lia. done. }
  assert (Hbst : batch_status_at s' batch = batch_status_at s batch).
  { unfold batch_status_at. by rewrite Hhb, lookup_app_l. }
  split.
  - done.
  - lia.
  - rewrite Hhj, length_app. lia.
  - rewrite Hbo by lia. apply (inv_batch _ _ _ _ _ Hinv).
  - intros i Hi. rewrite Hjo by lia. by apply (inv_jobs _ _ _ _ _ Hinv).
  - rewrite Hhb, lookup_app_l by done.
    apply (inv_batch_obj _ _ _ _ _ Hinv).
  - intros jid i Hi [Hl|Hl]%Hj; [|lia].
    by apply (inv_jobs_inj _ _ _ _ _ Hinv).
  - intros bid [Hl|Hl]%Hb; [|lia].
    by apply (inv_batch_inj _ _ _ _ _ Hinv).
  - intros b i Hi Hin%Hmine; [|done].
    by eapply (inv_entries_mine _ _ _ _ _ Hinv).
  - intros j. rewrite Hent. intros [Hin|Hin]%elem_of_app.
    + by apply (inv_entries_batch _ _ _ _ _ Hinv).
    + apply Hex in Hin as [_ Hbid].
      destruct (Hbid _ eq_refl) as (k & Hk & Heq).
      apply (distinct_ids_inj E) in Heq; [lia|done|lia|lia].
  - rewrite Hw. apply (inv_held_batch _ _ _ _ _ Hinv).
  - intros i Hi.
    destruct (inv_phase _ _ _ _ _ Hinv i Hi) as (st & Hs & Hal & Hheld).
    exists st. rewrite Hst by done. split; [done|]. split.
    + unfold allowed in *. rewrite Hw.
      rewrite (decide_ext _ _ _ _ (Hmem i Hi)). done.
    + rewrite Hw, (Hmem i Hi). done.
  - intros Hall. rewrite Hbst, Hw.
    apply (inv_status _ _ _ _ _ Hinv).
    intros i Hi. rewrite <- Hst by done. by apply Hall.
Qed.

Lemma allowed_held s jid r :
  held (worker s) = Some r →
  allowed s jid r =
    match worker s with
    | AtCheck _ _ | AtBegin _ _ => [PENDING]
    | AtMarkBatch _ _ | AtRun _ _ => [PROCESSING]
    | AtBatchDone _ _ => [COMPLETED; FAILED]
    | _ => []
    end.
Proof. intros Hh. unfold allowed. by rewrite decide_True. Qed.

Lemma allowed_not_held s jid r :
  held (worker s) ≠ Some r →
  allowed s jid r =
    if decide (jid ∈ (entries s).*2) then [PENDING]
    else [COMPLETED; FAILED].
Proof. intros Hh. unfold allowed. by rewrite decide_False. Qed.

Lemma run_job_finished o r s st :
  job_status s r = Some st → finished (job_status (run_job o r s) r).
Proof.
  unfold job_status. intros Hst.
  destruct (heap_jobs s !! r) as [j|] eqn:Hj; [|done].
  unfold finished, run_job, finish_job, complete_job, fail_job, tick,
    update_job.
  repeat case_match; cbn; rewrite ?list_lookup_alter_eq, Hj; cbn; eauto.
Qed.

Lemma all_done_finished s batch base n :
  jobs <$> heap_batches s !! batch = Some (seq base n) →
  (∀ i, i < n → finished (job_status s (base + i))) →
  all_done s batch = true.
Proof.
  intros Hb Hall. unfold all_done, jobs_of. rewrite Hb. cbn.
  apply forallb_forall. intros r Hr%list_elem_of_In%elem_of_seq.
  destruct (Hall (r - base)) as [Hf|Hf]; [lia|..];
    replace (base + (r - base)) with r in Hf by lia;
    by rewrite Hf.
Qed.

Lemma inv_held_batch_step E kb batch base n o s :
  distinct_ids E → entropy s ≤ E → inv kb batch base n s →
  held_batch (worker (worker_step o s)) = Some batch →
  ∃ i, i < n ∧ held (worker (worker_step o s)) = Some (base + i).
Proof.
  intros Hd HE Hinv. unfold worker_step.
  destruct (_is_running s); cbn; [|apply (inv_held_batch _ _ _ _ _ Hinv)].
  pose proof (inv_held_batch _ _ _ _ _ Hinv) as Hhb.
  destruct (worker s) as [|bid jid|job bt|r bt|r bt|r bt|r bt|] eqn:Hpc;
    cbn in *.
  - by destruct (_queue s) as [|[]]; rewrite ?Hpc.
  - destruct (truthy bid) as [b'|] eqn:Htr; cbn; [|done].
    intros Hl. apply (inv_batch_inj _ _ _ _ _ Hinv) in Hl as ->.
    assert (bid = Some (uuid8 kb)) as ->.
    { destruct bid as [b0|]; cbn in Htr; [|done]. by case_decide; simplify_eq. }
    destruct (inv_entries_batch _ _ _ _ _ Hinv jid) as (i & Hi & ->).
    { unfold entries. rewrite Hpc. apply list_elem_of_here. }
    exists i. split; [done|]. by apply (inv_jobs _ _ _ _ _ Hinv).
  - destruct job as [r|]; [case_decide|]; cbn; try done.
  - done.
  - done.
  - destruct (run_job_frame o r s) as (_&_&_&_&_&Hw&_).
    done.
  - done.
  - done.
Qed.

Lemma job_status_set_worker pc s r :
  job_status (set_worker pc s) r = job_status s r.
Proof. done. Qed.

Lemma entries_not_lookup pc s :
  (∀ b j, pc ≠ AtLookup b j) → entries (set_worker pc s) = _queue s.
Proof. unfold entries. cbn. by destruct pc; intros Hpc; try (by edestruct Hpc). Qed.

Lemma job_status_update (f : PDFJob → PDFJob) st r r' s :
  (∀ j, status (f j) = st) →
  job_status (update_job r f s) r' =
    if decide (r = r') then (λ _, st) <$> heap_jobs s !! r'
    else job_status s r'.
Proof.
  intros Hf. unfold job_status, update_job. cbn.
  case_decide as Hr; [subst r'|].
  - rewrite list_lookup_alter_eq. destruct (heap_jobs s !! r); cbn; [|done].
    by rewrite Hf.
  - by rewrite list_lookup_alter_ne.
Qed.

Lemma inv_phase_step E kb batch base n o s i :
  distinct_ids E → entropy s ≤ E → inv kb batch base n s → i < n →
  let s' := worker_step o s in
  ∃ st, job_status s' (base + i) = Some st ∧
        st ∈ allowed s' (uuid8 (S (kb + i))) (base + i) ∧
        (held (worker s') = Some (base + i) →
           (uuid8 (S (kb + i)) ∉ (entries s').*2) ∧
           held_batch (worker s') = Some batch).
Proof.
  intros Hd HE Hinv Hi. cbn zeta.
  destruct (inv_phase _ _ _ _ _ Hinv i Hi) as (st & Hst & Hal & Hheld).
  pose proof (inv_entropy _ _ _ _ _ Hinv) as Hkb.
  unfold worker_step.
  destruct (_is_running s); cbn; [|by exists st].
  destruct (worker s) as [|bid jid|job bt|r bt|r bt|r bt|r bt|] eqn:Hpc.
  - (* AtGet *)
    destruct (_queue s) as [|[bid jid] q] eqn:Hq; [exists st; by rewrite Hpc|].
    exists st. split; [done|].
    rewrite allowed_not_held in * by (rewrite ?Hpc; done).
    norm_entries Hpc. rewrite Hq in Hal. done.
  - (* AtLookup *)
    exists st. split; [done|].
    rewrite allowed_not_held in Hal by (rewrite ?Hpc; done).
    norm_entries Hpc.
    destruct (decide (jid = uuid8 (S (kb + i)))) as [->|Hne].
    + rewrite (inv_jobs _ _ _ _ _ Hinv) by done.
      rewrite allowed_held by done. cbn.
      rewrite decide_True in Hal by apply list_elem_of_here.
      split; [done|]. intros _.
      pose proof (wf_nodup _ (inv_wf _ _ _ _ _ Hinv)) as Hnd.
      norm_entries Hpc.
      apply NoDup_cons in Hnd as [Hnin _]. split; [done|].
      assert (bid = Some (uuid8 kb)) as ->.
      { eapply (inv_entries_mine _ _ _ _ _ Hinv); [done|].
        unfold entries. rewrite Hpc. apply list_elem_of_here. }
      cbn. rewrite decide_False
        by (apply (distinct_ids_nonempty E); [done|lia]).
      cbn. apply (inv_batch _ _ _ _ _ Hinv).
    + assert (Hnh : _jobs s !! jid ≠ Some (base + i)).
      { intros Hl. by apply (inv_jobs_inj _ _ _ _ _ Hinv) in Hl. }
      rewrite allowed_not_held by done. norm_entries Hpc. split; [|done].
      erewrite decide_ext; [exact Hal|].
      rewrite elem_of_cons. split; [by right|]. by intros [?|?].
  - (* AtCheck *)
    destruct job as [r|].
    2:{ exists st. split; [done|].
        rewrite allowed_not_held in * by (rewrite ?Hpc; done).
        by norm_entries Hpc. }
    destruct (decide (r = base + i)) as [->|Hne].
    + rewrite allowed_held in Hal by (by rewrite Hpc).
      rewrite Hpc in Hal. apply list_elem_of_singleton in Hal as ->.
      rewrite Hst, decide_False by done.
      exists PENDING. split; [done|].
      rewrite allowed_held by done. split; [apply list_elem_of_here|].
      intros _. norm_entries Hpc. by apply Hheld.
    + exists st.
      rewrite allowed_not_held in Hal by (rewrite Hpc; cbn; congruence).
      destruct (decide (job_status s r = Some CANCELLED)).
      * split; [done|]. rewrite allowed_not_held by done.
        by norm_entries Hpc.
      * split; [done|].
        rewrite allowed_not_held by (cbn; congruence).
        norm_entries Hpc. split; [done|congruence].
  - (* AtBegin *)
    rewrite job_status_set_worker.
    change (job_status (tick ?x)) with (job_status x).
    rewrite (job_status_update _ PROCESSING) by done.
    destruct (decide (r = base + i)) as [->|Hne].
    + unfold job_status in Hst. destruct (heap_jobs s !! (base + i)); [|done].
      exists PROCESSING. split; [done|].
      rewrite allowed_held by done. split; [apply list_elem_of_here|].
      intros _. norm_entries Hpc. by apply Hheld.
    + exists st. split; [done|].
      rewrite allowed_not_held in * by (rewrite ?Hpc; cbn; congruence).
      norm_entries Hpc. split; [done|congruence].
  - (* AtMarkBatch *)
    exists st. split; [by destruct bt|].
    destruct (decide (r = base + i)) as [->|Hne].
    + rewrite allowed_held in * by (by rewrite ?Hpc).
      rewrite Hpc in Hal. split; [done|].
      intros _. norm_entries Hpc. destruct bt; by apply Hheld.
    + rewrite allowed_not_held in * by (rewrite ?Hpc; cbn; congruence).
      norm_entries Hpc. split; [by destruct bt|congruence].
  - (* AtRun *)
    destruct (run_job_frame o r s)
      as (_ & _ & _ & Hq & _ & _ & _ & _ & _ & Hother).
    destruct (decide (r = base + i)) as [->|Hne].
    + destruct (run_job_finished o _ _ _ Hst) as [Hf|Hf];
        rewrite job_status_set_worker, Hf; eexists; (split; [done|]);
        rewrite allowed_held by done; cbn;
        (split; [repeat constructor|]); intros _;
        norm_entries Hpc; rewrite Hq; by apply Hheld.
    + exists st. split.
      { unfold job_status in *. cbn. by rewrite Hother. }
      rewrite allowed_not_held in * by (rewrite ?Hpc; cbn; congruence).
      norm_entries Hpc. rewrite Hq. split; [done|congruence].
  - (* AtBatchDone *)
    exists st. split; [by destruct bt as [b|]; [destruct (all_done s b)|]|].
    assert (Hq : ∀ s1, _queue s1 = _queue s →
              (entries (set_worker AtRateLimit s1)).*2 = (entries s).*2).
    { intros s1 Hs1. unfold entries. by rewrite Hpc, <- Hs1. }
    rewrite allowed_not_held by done.
    rewrite Hq by (by destruct bt as [b|]; [destruct (all_done s b)|]).
    split; [|done].
    destruct (decide (r = base + i)) as [->|Hne].
    + rewrite allowed_held in Hal by (by rewrite Hpc). rewrite Hpc in Hal.
      destruct Hheld as [Hnin _]; [done|].
      by rewrite decide_False.
    + by rewrite allowed_not_held in Hal by (rewrite Hpc; cbn; congruence).
  - (* AtRateLimit *)
    exists st. split; [by destruct (_queue s)|].
    assert (Hq : ∀ s1, _queue s1 = _queue s →
              (entries (set_worker AtGet s1)).*2 = (entries s).*2).
    { intros s1 Hs1. unfold entries. by rewrite Hpc, <- Hs1. }
    rewrite allowed_not_held in * by (by rewrite ?Hpc).
    rewrite Hq by (by destruct (_queue s) eqn:Hq').
    done.
Qed.

Lemma batch_status_update (st : JobStatus) b b' s :
  batch_status_at (update_batch b (set_batch_status st) s) b' =
    if decide (b = b') then (λ _, st) <$> heap_batches s !! b'
    else batch_status_at s b'.
Proof.
  unfold batch_status_at, update_batch. cbn.
  case_decide as Hb; [subst b'|].
  - rewrite list_lookup_alter_eq. by destruct (heap_batches s !! b).
  - by rewrite list_lookup_alter_ne.
Qed.

(** Every change of a job's status is one of three writes: [cancel_batch]
    moves a Pending job to Cancelled; the worker sets Processing on the
    job it passed through the test of line 321, whatever the job's status
    has become since; the worker sets Completed or Failed on the job it
    is running. *)
Lemma job_status_writes (s : BatchProcessor) (a : action) (r : nat)
    (st st' : JobStatus) :
  job_status s r = Some st → job_status (apply_action a s) r = Some st' →
  st ≠ st' →
  (st = PENDING ∧ st' = CANCELLED ∧ ∃ bid, a = CancelBatch bid) ∨
  (st' = PROCESSING ∧ ∃ o bt, a = WorkerStep o ∧ worker s = AtBegin r bt) ∨
  ((st' = COMPLETED ∨ st' = FAILED) ∧
     ∃ o bt, a = WorkerStep o ∧ worker s = AtRun r bt).
Proof.
  intros Hst Hst' Hne.
  destruct a as [fps|fp|bid|o|fs]; cbn in Hst'.
  - exfalso. unfold exec, job_status in *.
    rewrite create_batch_effect in Hst'. cbn in Hst'.
    destruct (heap_jobs s !! r) as [j|] eqn:Hj; [|done].
    rewrite lookup_app_l, Hj in Hst' by by eapply lookup_lt_Some.
    congruence.
  - exfalso. unfold exec, job_status in *.
    rewrite add_single_job_effect in Hst'.
    destruct (heap_jobs s !! r) as [j|] eqn:Hj; [|done].
    repeat case_match; cbn in Hst';
      rewrite ?lookup_app_l, ?Hj in Hst' by (by eapply lookup_lt_Some);
      congruence.
  - left. unfold exec, cancel_batch, job_status in *.
    destruct (_batches s !! bid) as [b|]; cbn in Hst'; [|congruence].
    rewrite cancel_all_lookup in Hst' by apply cancel_if_pending_idem.
    destruct (heap_jobs s !! r) as [j|]; [|done].
    case_decide; cbn in *; [|congruence].
    unfold cancel_if_pending in Hst'.
    destruct (decide (status j = PENDING)) as [Hp|Hp]; cbn in *;
      [|by simplify_eq].
    simplify_eq. split_and!; [done|done|by eexists].
  - right. unfold worker_step in Hst'.
    destruct (_is_running s); cbn in Hst'; [|congruence].
    destruct (worker s) as [|bid jid|job bt|r' bt|r' bt|r' bt|r' bt|] eqn:Hpc.
    + destruct (_queue s) as [|[]];
        change (job_status s r = Some st') in Hst'; congruence.
    + change (job_status s r = Some st') in Hst'. congruence.
    + repeat case_match;
        change (job_status s r = Some st') in Hst'; congruence.
    + rewrite job_status_set_worker in Hst'.
      change (job_status (tick ?x)) with (job_status x) in Hst'.
      rewrite (job_status_update _ PROCESSING) in Hst' by done.
      case_decide; [subst r'|congruence].
      unfold job_status in Hst. destruct (heap_jobs s !! r); [|done].
      cbn in Hst'. simplify_eq. left. eauto.
    + destruct bt;
        change (job_status s r = Some st') in Hst'; congruence.
    + destruct (decide (r' = r)) as [->|Hr].
      * right. destruct (run_job_finished o _ _ _ Hst) as [Hf|Hf];
          rewrite job_status_set_worker, Hf in Hst'; simplify_eq;
          (split; [by eauto|by eexists _, _]).
      * destruct (run_job_frame o r' s) as (_&_&_&_&_&_&_&_&_&Hother).
        unfold job_status in *. cbn in Hst'.
        rewrite Hother in Hst' by done. congruence.
    + destruct bt as [b|]; [destruct (all_done s b)|];
        change (job_status s r = Some st') in Hst'; congruence.
    + destruct (_queue s) as [|[]];
        change (job_status s r = Some st') in Hst'; congruence.
  - change (job_status s r = Some st') in Hst'. congruence.
Qed.

Lemma inv_status_step E kb batch base n o s :
  distinct_ids E → entropy s ≤ E → inv kb batch base n s →
  let s' := worker_step o s in
  (∀ i, i < n → finished (job_status s' (base + i))) →
  batch_status_at s' batch = Some COMPLETED ∨
  ∃ r, worker s' = AtBatchDone r (Some batch).
Proof.
  intros Hd HE Hinv. cbn zeta.
  pose proof (inv_status _ _ _ _ _ Hinv) as Hstat.
  pose proof (inv_phase _ _ _ _ _ Hinv) as Hph.
  pose proof (inv_held_batch _ _ _ _ _ Hinv) as Hhb.
  unfold worker_step.
  destruct (_is_running s); cbn; [|done].
  destruct (worker s) as [|bid jid|job bt|r bt|r bt|r bt|r bt|] eqn:Hpc.
  - intros Hall. left.
    destruct (_queue s) as [|[bid jid] q] eqn:Hq;
      (destruct Hstat as [?|[? ?]]; [done|done|done]).
  - intros Hall. left. destruct Hstat as [?|[? ?]]; done.
  - intros Hall. left.
    destruct job as [r|]; [destruct (decide _)|];
      (destruct Hstat as [?|[? ?]]; [done|done|done]).
  - (* AtBegin *)
    intros Hall. left.
    assert (Hsame : ∀ i, i < n → finished (job_status s (base + i))).
    { intros i Hi. specialize (Hall i Hi).
      rewrite job_status_set_worker in Hall.
      change (job_status (tick ?x)) with (job_status x) in Hall.
      rewrite (job_status_update _ PROCESSING) in Hall by done.
      case_decide; [|done].
      destruct (heap_jobs s !! (base + i)); by destruct Hall. }
    destruct Hstat as [?|[? ?]]; done.
  - (* AtMarkBatch *)
    intros Hall.
    assert (Hsame : ∀ i, i < n → finished (job_status s (base + i))).
    { intros i Hi. specialize (Hall i Hi). by destruct bt. }
    destruct bt as [b|]; [|destruct Hstat as [?|[? ?]]; by eauto].
    destruct (decide (b = batch)) as [->|Hne].
    + destruct Hhb as (i & Hi & Hr); [done|]. cbn in Hr. simplify_eq.
      destruct (Hph i Hi) as (st & Hst & Hal & _).
      rewrite allowed_held in Hal by (by rewrite Hpc). rewrite Hpc in Hal.
      apply list_elem_of_singleton in Hal as ->.
      destruct (Hsame i Hi) as [Hf|Hf]; congruence.
    + left.
      unfold batch_status_at. cbn. rewrite list_lookup_alter_ne by done.
      destruct Hstat as [?|[? ?]]; done.
  - (* AtRun *)
    intros Hall.
    destruct (run_job_frame o r s)
      as (Hb & _ & _ & _ & _ & _ & _ & _ & _ & Hother).
    destruct (decide (bt = Some batch)) as [->|Hne]; [right; by eexists|].
    left. unfold batch_status_at. cbn. rewrite Hb.
    assert (Hsame : ∀ i, i < n → finished (job_status s (base + i))).
    { intros i Hi. specialize (Hall i Hi).
      destruct (Hph i Hi) as (st & Hst & _ & Hheld).
      cbn in Hheld.
      assert (r ≠ base + i) by (intros ->; by destruct Hheld).
      unfold job_status in *. cbn in Hall. by rewrite Hother in Hall. }
    destruct Hstat as [?|[? ?]]; done.
  - (* AtBatchDone *)
    intros Hall. left.
    assert (Hsame : ∀ i, i < n → finished (job_status s (base + i))).
    { intros i Hi. specialize (Hall i Hi).
      by destruct bt as [b|]; [destruct (all_done s b)|]. }
    destruct (decide (bt = Some batch)) as [->|Hne].
    + rewrite (all_done_finished s batch base n);
        [|apply (inv_batch_obj _ _ _ _ _ Hinv)|done].
      unfold batch_status_at. cbn. rewrite list_lookup_alter_eq.
      pose proof (inv_batch_obj _ _ _ _ _ Hinv) as Hobj.
      by destruct (heap_batches s !! batch).
    + destruct Hstat as [Hc|[r' Hr']]; [done| |congruence].
      destruct bt as [b|]; [destruct (all_done s b)|]; try done.
      unfold batch_status_at. cbn.
      rewrite list_lookup_alter_ne by congruence. done.
  - (* AtRateLimit *)
    intros Hall. left.
    destruct (_queue s) as [|[bid jid] q] eqn:Hq;
      (destruct Hstat as [?|[? ?]]; [done|done|done]).
Qed.

Lemma inv_worker_step E kb batch base n o s :
  distinct_ids E → entropy s ≤ E → inv kb batch base n s →
  inv kb batch base n (worker_step o s).
Proof.
  intros Hd HE Hinv.
  assert (Hwf' : wf (worker_step o s)).
  { apply (wf_step E (WorkerStep o)); [done|apply (inv_wf _ _ _ _ _ Hinv)|].
    cbn. by destruct (worker_step_frame o s) as (_ & _ & -> & _). }
  destruct (worker_step_frame o s)
    as (Hjs & Hbs & He & _ & Hlj & Hlb & Hjobs & Hsub & _ & _).
  split.
  - done.
  - rewrite He. apply (inv_entropy _ _ _ _ _ Hinv).
  - rewrite Hlj. apply (inv_heap _ _ _ _ _ Hinv).
  - rewrite Hbs. apply (inv_batch _ _ _ _ _ Hinv).
  - rewrite Hjs. apply (inv_jobs _ _ _ _ _ Hinv).
  - rewrite Hjobs. apply (inv_batch_obj _ _ _ _ _ Hinv).
  - rewrite Hjs. apply (inv_jobs_inj _ _ _ _ _ Hinv).
  - rewrite Hbs. apply (inv_batch_inj _ _ _ _ _ Hinv).
  - intros b i Hi Hin. eapply (inv_entries_mine _ _ _ _ _ Hinv); [done|].
    by eapply elem_of_sublist.
  - intros j Hin. apply (inv_entries_batch _ _ _ _ _ Hinv).
    by eapply elem_of_sublist.
  - by eapply inv_held_batch_step.
  - intros i Hi. by eapply inv_phase_step.
  - by eapply inv_status_step.
Qed.


Lemma inv_step E kb batch base n a s :
  distinct_ids E → entropy (apply_action a s) ≤ E →
  is_cancel a = false →
  inv kb batch base n s → inv kb batch base n (apply_action a s).
Proof.
  intros Hd HE Hnc Hinv.
  pose proof (inv_wf _ _ _ _ _ Hinv) as Hwf.
  destruct a as [fps|fp|bid|o|fs].
  - eapply inv_extends; [done..|by eapply create_batch_extends| |done].
    by apply (wf_step E (CreateBatch fps)).
  - eapply inv_extends; [done..|by eapply add_single_job_extends| |done].
    by apply (wf_step E (AddSingleJob fp)).
  - done.
  - eapply inv_worker_step; [done| |done].
    etrans; [apply (entropy_mono (WorkerStep o))|done].
  - destruct Hinv as [[] ? ? ? ? ? ? ? ? ? ? ? ?]. split; [split|..]; done.
Qed.

Lemma inv_run E kb batch base n sched s :
  distinct_ids E → entropy (run sched s) ≤ E → no_cancel sched = true →
  inv kb batch base n s → inv kb batch base n (run sched s).
Proof.
  intros Hd. revert s.
  induction sched as [|a sched IH]; intros s HE Hnc Hinv; [done|].
  cbn in *. apply andb_true_iff in Hnc as [Ha Hnc].
  apply IH; [done|done|].
  eapply inv_step; [done| |by destruct (is_cancel a)|done].
  etrans; [apply entropy_mono_run|done].
Qed.

Lemma inv_create E fps s :
  distinct_ids E → wf s → entropy (exec (create_batch fps) s) ≤ E →
  1 ≤ length (accepted s fps) →
  inv (entropy s) (length (heap_batches s)) (length (heap_jobs s))
      (length (accepted s fps)) (exec (create_batch fps) s).
Proof.
  intros Hd Hwf HE Hn.
  assert (Hwf' : wf (exec (create_batch fps) s))
    by by apply (wf_step E (CreateBatch fps)).
  pose proof (create_batch_effect fps s) as Heff. cbn zeta in Heff.
  unfold exec in *. destruct (create_batch fps s) as [res s1].
  cbn [snd] in *. injection Heff as _ Hs1.
  set (vs := accepted s fps) in *.
  set (js := new_jobs (S (entropy s)) (S (clock s)) vs) in *.
  assert (Hlen : length js = length vs) by apply length_new_jobs.
  assert (Hhj : heap_jobs s1 = heap_jobs s ++ js) by by rewrite Hs1.
  assert (Hhb : heap_batches s1 = heap_batches s ++
            [mkBatchJob (uuid8 (entropy s))
               (seq (length (heap_jobs s)) (length vs)) (clock s) PENDING])
    by by rewrite Hs1, Hlen.
  assert (Hbs : _batches s1
                = <[uuid8 (entropy s) := length (heap_batches s)]>
                    (_batches s)) by by rewrite Hs1.
  assert (Hjs : _jobs s1 = register_all (_jobs s) (length (heap_jobs s)) js)
    by by rewrite Hs1.
  assert (Hw : worker s1 = worker s) by by rewrite Hs1.
  assert (Hen : entropy s1 = S (entropy s) + length vs)
    by by rewrite Hs1, Hlen.
  assert (Hent : entries s1 = entries s ++
            ((λ j, (Some (uuid8 (entropy s)), job_id j)) <$> js))
    by (apply entries_append; by rewrite Hs1).
  clear Hs1. rewrite Hen in HE.
  assert (Hold : ∀ b i, i < length vs →
                 (b, uuid8 (S (entropy s + i))) ∈ entries s → False).
  { intros b i Hi (k & Hk & Heq)%(wf_entries _ Hwf).
    apply (distinct_ids_inj E) in Heq; [lia|done|lia|lia]. }
  assert (Hnew : ∀ i, i < length vs →
            job_status s1 (length (heap_jobs s) + i) = Some PENDING).
  { intros i Hi. unfold job_status. rewrite Hhj, lookup_app_r by lia.
    replace (length (heap_jobs s) + i - length (heap_jobs s)) with i by lia.
    unfold js. rewrite new_jobs_lookup.
    destruct (lookup_lt_is_Some_2 vs i Hi) as [fp ->]. done. }
  split.
  - done.
  - lia.
  - rewrite Hhj, length_app. lia.
  - by rewrite Hbs, lookup_insert_eq.
  - intros i Hi. rewrite Hjs.
    apply (register_all_new _ _ (S (entropy s))); [|done].
    apply (NoDup_fresh_ids E); [done|lia].
  - by rewrite Hhb, list_lookup_middle.
  - intros jid i Hi. rewrite Hjs.
    intros [Hl|(i' & Hi' & -> & Heq)]%register_all_Some.
    + apply (wf_jobs _ Hwf) in Hl. lia.
    + by replace i' with i by lia.
  - intros bid. rewrite Hbs.
    intros [[<- _]|[_ Hl]]%lookup_insert_Some; [done|].
    apply (wf_batches _ Hwf) in Hl. lia.
  - intros b i Hi. rewrite Hent. intros [Hin|Hin]%elem_of_app.
    + by destruct (Hold b i).
    + by apply new_entry_inv in Hin as [-> _].
  - intros j. rewrite Hent. intros [Hin|Hin]%elem_of_app.
    + apply (wf_entries_batch _ Hwf) in Hin as (k & Hk & Heq).
      apply (distinct_ids_inj E) in Heq; [lia|done|lia|lia].
    + apply new_entry_inv in Hin as (_ & i & Hi & ->). by exists i.
  - rewrite Hw. intros Hb%(wf_held_batch _ Hwf). lia.
  - intros i Hi.
    assert (Hnh : held (worker s1) ≠ Some (length (heap_jobs s) + i)).
    { rewrite Hw. intros Hh%(wf_held _ Hwf). lia. }
    exists PENDING. split_and!; [by apply Hnew| |done].
    rewrite allowed_not_held by done. rewrite Hent, fmap_app.
    rewrite decide_True; [apply list_elem_of_here|].
    apply elem_of_app. right. unfold js. rewrite new_entries_ids.
    apply list_elem_of_fmap. exists (S (entropy s) + i).
    split; [done|]. apply elem_of_seq. lia.
  - intros Hall. destruct (Hall 0) as [Hf|Hf]; [lia|..];
      rewrite Hnew in Hf by lia; done.
Qed.


Lemma length_omap_lookup {A} (h : list A) (rs : list nat) :
  (∀ r, r ∈ rs → r < length h) →
  length (omap (λ r, h !! r) rs) = length rs.
Proof.
  induction rs as [|r rs IH]; intros Hrs; [done|]. cbn.
  destruct (lookup_lt_is_Some_2 h r) as [x ->].
  { apply Hrs, list_elem_of_here. }
  cbn. rewrite IH; [done|].
  intros r' Hr'. by apply Hrs, list_elem_of_further.
Qed.

Lemma count_jobs_all (P : JobStatus → bool) (js : list PDFJob) :
  (∀ j, j ∈ js → P (status j) = true) →
  count_jobs P js = Z.of_nat (length js).
Proof.
  unfold count_jobs. induction js as [|j js IH]; intros Hall; [done|].
  cbn. rewrite (Hall j) by apply list_elem_of_here. cbn.
  rewrite IH; [lia|]. intros j' Hj'. by apply Hall, list_elem_of_further.
Qed.

(** C7, as amended. In every state whatever, [successful_jobs +
    failed_jobs = completed_jobs] for every batch.  And when a batch is
    submitted in a state reached by any run, at least one of its paths
    is accepted (exists, suffix .pdf), nobody cancels afterwards, the
    identifiers drawn up to the end are pairwise distinct and not empty,
    and the queue is drained with the worker back at its [get], then
    the batch has one job per accepted path, all of them counted as
    completed, and its status is Completed. *)
Theorem drained_batch_is_completed :
  (∀ s b, (successful_jobs s b + failed_jobs s b = completed_jobs s b)%Z) ∧
  (∀ pre fps post,
     let s0 := run pre init in
     let s1 := exec (create_batch fps) s0 in
     let s2 := run post s1 in
     let n := length (accepted s0 fps) in
     distinct_ids (entropy s2) → no_cancel post = true → 1 ≤ n →
     drained s2 →
     ∃ b, create_batch fps s0 = (Return (length (heap_batches s0)), s1) ∧
          heap_batches s2 !! length (heap_batches s0) = Some b ∧
          total_jobs s2 b = Z.of_nat n ∧
          completed_jobs s2 b = Z.of_nat n ∧
          (successful_jobs s2 b + failed_jobs s2 b)%Z = Z.of_nat n ∧
          batch_status b = COMPLETED).
Proof.
  split; [intros s b; apply count_jobs_split|].
  intros pre fps post s0 s1 s2 n Hd Hnc Hn [Hq Hpc].
  assert (HE1 : entropy s1 ≤ entropy s2) by apply entropy_mono_run.
  assert (HE0 : entropy s0 ≤ entropy s1)
    by apply (entropy_mono (CreateBatch fps)).
  assert (Hwf0 : wf s0).
  { apply (wf_run (entropy s2)); [done|apply wf_init|].
    etrans; [exact HE0|exact HE1]. }
  assert (Hinv : inv (entropy s0) (length (heap_batches s0))
                   (length (heap_jobs s0)) n s2).
  { apply (inv_run (entropy s2)); [done|done|done|].
    by apply (inv_create (entropy s2)). }
  assert (Hfin : ∀ i, i < n →
            finished (job_status s2 (length (heap_jobs s0) + i))).
  { intros i Hi.
    destruct (inv_phase _ _ _ _ _ Hinv i Hi) as (st & Hst & Hal & _).
    rewrite allowed_not_held in Hal by (by rewrite Hpc).
    unfold entries in Hal. rewrite Hpc, Hq in Hal. cbn in Hal.
    rewrite Hst. unfold finished.
    apply elem_of_cons in Hal as [->|Hal]; [by left|].
    apply list_elem_of_singleton in Hal as ->. by right. }
  pose proof (inv_batch_obj _ _ _ _ _ Hinv) as Hobj.
  destruct (heap_batches s2 !! length (heap_batches s0)) as [b|] eqn:Hb;
    [|done].
  cbn in Hobj. injection Hobj as Hjobs.
  exists b.
  assert (Hlen : length (batch_jobs s2 b) = n).
  { unfold batch_jobs. rewrite Hjobs, length_omap_lookup.
    - apply length_seq.
    - intros r Hr%elem_of_seq.
      pose proof (inv_heap _ _ _ _ _ Hinv). lia. }
  assert (Hcomp : completed_jobs s2 b = Z.of_nat n).
  { unfold completed_jobs. rewrite count_jobs_all; [by rewrite Hlen|].
    unfold batch_jobs. rewrite Hjobs.
    intros j (r & Hr%elem_of_seq & Hj)%list_elem_of_omap.
    destruct (Hfin (r - length (heap_jobs s0))) as [Hf|Hf]; [lia|..];
      replace (length (heap_jobs s0) + (r - length (heap_jobs s0)))
        with r in Hf by lia;
      unfold job_status in Hf; rewrite Hj in Hf; cbn in Hf;
      simplify_eq; by rewrite Hf. }
  split_and!.
  - pose proof (create_batch_effect fps s0) as Heff. cbn zeta in Heff.
    subst s1. unfold exec. by rewrite Heff.
  - done.
  - unfold total_jobs. by rewrite Hlen.
  - done.
  - rewrite <- Hcomp. apply count_jobs_split.
  - destruct (inv_status _ _ _ _ _ Hinv Hfin) as [Hst|[r Hr]];
      [|congruence].
    unfold batch_status_at in Hst. rewrite Hb in Hst. cbn in Hst.
    congruence.
Qed.

End Drain.

(** * The scenarios, evaluated *)
Section Evaluated.
Import Scenario.
#[local] Existing Instance Posix.platform.


(** C1: after [cancel_batch] has moved the job from Pending to
    Cancelled, the worker's next step moves it to Processing, which is
    no edge of the job state machine; the job then runs to Completed. *)
Theorem cancelled_job_is_started :
  let s := run cancel_after_check init in
  let s' := apply_action (WorkerStep all_ok) s in
  job_status (run (submit_one ++ work 3) init) 0 = Some PENDING ∧
  worker (run (submit_one ++ work 3) init) = AtBegin 0 (Some 0%nat) ∧
  job_status s 0 = Some CANCELLED ∧
  job_status s' 0 = Some PROCESSING ∧
  job_edge CANCELLED PROCESSING = false ∧
  ¬ job_moves_ok s s' ∧
  job_status (run (work 2) s') 0 = Some COMPLETED.
Proof.
  cbn zeta. split_and!; try by vm_compute.
  intros Hok. destruct (Hok 0%nat CANCELLED PROCESSING) as [?|?];
    try done; by vm_compute.
Qed.


(** For batches of fewer than fifty jobs the binary64 computation agrees
    with the exact floor. *)
Lemma percent_is_floor_below_50 (completed total : Z) :
  0 < total < 50 → 0 ≤ completed ≤ total →
  percent completed total = completed * 100 / total.
Proof.
  intros Ht Hc.
  assert (Hall : forallb (λ t, forallb (λ c, percent c t =? c * 100 / t)
                                 (seqZ 0 (t + 1)))
                   (seqZ 1 49) = true) by by vm_compute.
  rewrite forallb_forall in Hall.
  specialize (Hall total). rewrite forallb_forall in Hall.
  apply Z.eqb_eq, Hall.
  - apply list_elem_of_In, elem_of_seqZ. lia.
  - apply list_elem_of_In, elem_of_seqZ. lia.
Qed.

(** C6: with 29 of 50 jobs finished, the three counts are as the
    specification says, but [progress] is 57 where
    floor(29 / 50 * 100) is 58: the binary64 product 0.58 * 100 is
    57.99999999999999. *)
Theorem progress_of_29_in_50 :
  let s := run fifty_files init in
  ∃ b, heap_batches s !! 0%nat = Some b ∧
       total_jobs s b = 50 ∧ completed_jobs s b = 29 ∧
       successful_jobs s b = 29 ∧ failed_jobs s b = 0 ∧
       batch_progress s b = 57 ∧
       completed_jobs s b * 100 / total_jobs s b = 58.
Proof. cbn zeta. eexists. split; [by vm_compute|]. by vm_compute. Qed.

(** C7, counterexample: a batch submitted with one path that does not
    exist is drained at once; nothing of it is ever completed and its
    status stays Pending, also after the worker has run. The same holds
    for an empty list of paths. *)
Lemma unaccepted_batch_stays_pending :
  let fps := ["in/missing.pdf"] in
  let s := run (CreateBatch fps :: work 8) init in
  let s' := run (CreateBatch [] :: work 8) init in
  (drained s ∧ distinct_ids (entropy s) ∧
   ∃ b, heap_batches s !! 0%nat = Some b ∧
        completed_jobs s b ≠ Z.of_nat (length fps) ∧
        batch_status b ≠ COMPLETED) ∧
  (drained s' ∧
   ∃ b, heap_batches s' !! 0%nat = Some b ∧ batch_status b ≠ COMPLETED).
Proof.
  cbn zeta. split_and!; try by vm_compute.
  - split; apply (bool_decide_unpack _); by vm_compute.
  - eexists. split; [by vm_compute|]. by vm_compute.
  - eexists. split; [by vm_compute|]. by vm_compute.
Qed.

End Evaluated.

(** * The theorems at concrete inputs *)
Section Witnesses.
Import Scenario.
#[local] Existing Instance Posix.platform.

(** C3 at the batch of [submit_one], and at an unknown id. *)
Lemma cancel_batch_spec_witness :
  let s := run submit_one init in
  cancel_batch "ffffffff" s = (Return false, s) ∧
  ∃ s', cancel_batch "00000000" s = (Return true, s') ∧
        job_status s' 0 = Some CANCELLED ∧
        batch_status_at s' 0 = Some CANCELLED.
Proof.
  intros s. split.
  - apply (proj1 (cancel_batch_spec s "ffffffff")). reflexivity.
  - destruct (proj2 (cancel_batch_spec s "00000000") 0%nat
                (mkBatchJob "00000000" [0%nat] 0 PENDING))
      as (s' & Hc & Hpend & _ & _ & Hb & _); [reflexivity..|].
    exists s'. split; [exact Hc|]. split.
    + unfold job_status.
      rewrite (Hpend 0%nat (new_job "00000001" "in/a.pdf" "a.pdf" 1));
        [reflexivity|repeat constructor|reflexivity|reflexivity].
    + unfold batch_status_at. rewrite Hb. reflexivity.
Defined.

(** C9 at an identifier nobody registered. *)
Lemma lookup_unknown_id_witness :
  let s := run submit_one init in
  get_job "ffffffff" s = (Return None, s) ∧
  get_batch "ffffffff" s = (Return None, s).
Proof.
  intros s. destruct (lookup_unknown_id s "ffffffff") as [Hj Hb].
  split; [apply Hj|apply Hb]; reflexivity.
Defined.


(** C5 at a queue whose head was cancelled before the worker took it. *)
Lemma worker_skips_witness :
  let s := run (submit_one ++ [CancelBatch "00000000"]) init in
  worker_step all_ok (worker_step all_ok (worker_step all_ok s))
  = set_queue [] s.
Proof.
  intros s.
  apply (proj2 (worker_skips_missing_or_cancelled s eq_refl)
           (Some "00000000") "00000001" [] all_ok all_ok all_ok);
    [reflexivity..|].
  right. exists 0%nat. split; reflexivity.
Defined.

(** C8 at a job whose validation raises. *)
Lemma task_error_witness :
  let s := run (submit_one ++ work 5) init in
  let s' := worker_step api_down s in
  ∃ j', heap_jobs s' !! 0%nat = Some j' ∧ status j' = FAILED ∧
        error j' = Some "Connection error." ∧ is_Some (completed_at j') ∧
        progress j' = 30 ∧ job_id j' = "00000001".
Proof.
  intros s s'.
  exact (proj1 (task_error_fails_job s api_down 0 (Some 0%nat)
           (mkPDFJob "00000001" "in/a.pdf" "a.pdf" PROCESSING 1 (Some 2%nat)
              None None None None 10)
           "Connection error." 30 eq_refl eq_refl eq_refl eq_refl)).
Defined.



(** C7 at a batch of two PDFs and a text file, drained by sixteen
    worker steps. *)
Lemma drained_batch_witness :
  let pre := [Filesystem {["in/a.pdf"; "in/notes.txt"; "in/b.pdf"]}] in
  let fps := ["in/a.pdf"; "in/notes.txt"; "in/b.pdf"] in
  let s2 := run (work 16) (exec (create_batch fps) (run pre init)) in
  ∃ b, heap_batches s2 !! 0%nat = Some b ∧
       total_jobs s2 b = 2 ∧ completed_jobs s2 b = 2 ∧
       successful_jobs s2 b + failed_jobs s2 b = 2 ∧
       batch_status b = COMPLETED.
Proof.
  intros pre fps s2.
  destruct (proj2 drained_batch_is_completed pre fps (work 16))
    as (b & _ & Hb & Ht & Hc & Hsf & Hst).
  - split; apply (bool_decide_unpack _); vm_compute; exact I.
  - reflexivity.
  - vm_compute. lia.
  - split; reflexivity.
  - exists b. split; [exact Hb|]. split; [exact Ht|]. split; [exact Hc|].
    split; [exact Hsf|exact Hst].
Defined.

End Witnesses.
